(** * mcp-hub: registry, plugin manager, transports, config and watcher

    A shallow embedding of the Go sources of mcp-hub
    (internal/registry, internal/plugin, internal/transport,
    internal/config, internal/watcher) together with the properties
    that the design document states about them. *)

From Stdlib Require Import ZArith Ascii String List Lia.
From stdpp Require Import base option list gmap fin_maps strings sorting pretty.

Local Open Scope string_scope.
Local Open Scope Z_scope.

(* ===================================================================== *)
(** ** The Go standard library, as far as the sources call it *)
(* ===================================================================== *)

(** The sources call a handful of standard-library functions whose code
    is not part of the repository.  They are an interface here, so that
    every result below holds for whatever these functions compute. *)
Class GoLib := {
  (** [os.ExpandEnv], at the environment of the running process *)
  ExpandEnv : string → string;
  (** [strings.ToLower] *)
  ToLower : string → string;
  (** [strings.TrimSpace] *)
  TrimSpace : string → string;
  (** how [encoding/json] writes a Go string (quotes and escapes) *)
  jsonQuote : string → string;
  (** whether [json.Unmarshal] of the text into a [map[string]any]
      succeeds *)
  jsonIsObject : string → bool
}.

(** Outcome of a call that returns [(value, error)]. *)
Inductive result (E A : Type) :=
| Ok (a : A)
| Err (e : E).
Arguments Ok {E A} a.
Arguments Err {E A} e.

(* ===================================================================== *)
(** ** internal/registry/registry.go *)
(* ===================================================================== *)

Module Registry.

(** [type Tool struct] *)
Record Tool := mkTool {
  ID : string;
  Name : string;
  Description : string;
  PluginID : string
}.

#[export] Instance Tool_eq_dec : EqDecision Tool.
Proof. solve_decision. Defined.

(** A [chan []Tool] made with capacity 1: at most one snapshot is
    buffered; [closed] records [close(ch)]. *)
Record Chan := mkChan {
  buf : option (list Tool);
  closed : bool
}.

(** [type Registry struct].  Channels are reference values in Go: the
    registry's [subs] set holds their identities, the channel contents
    live in the store [chans], which the subscribers share. *)
Record Registry := mkRegistry {
  tools : gmap string Tool;
  subs : gset nat;
  chans : gmap nat Chan
}.

Definition New : Registry :=
  {| tools := ∅; subs := ∅; chans := ∅ |}.

(** [sliceLocked]: the values of the map.  Go ranges over a map in an
    unspecified order; the model fixes the order of [map_to_list]. *)
Definition sliceLocked (r : Registry) : list Tool :=
  (map_to_list (tools r)).*2.

(** [select { case ch <- snapshot: default: }] on a channel of
    capacity 1: the send succeeds only when the buffer is empty. *)
Definition trySend (snapshot : list Tool) (c : Chan) : Chan :=
  match buf c with
  | None => {| buf := Some snapshot; closed := closed c |}
  | Some _ => c
  end.

Definition broadcastLocked (r : Registry) : Registry :=
  let snapshot := sliceLocked r in
  {| tools := tools r;
     subs := subs r;
     chans := set_fold (fun ch cs => alter (trySend snapshot) ch cs)
                       (chans r) (subs r) |}.

Definition setPluginID (pluginID : string) (t : Tool) : Tool :=
  {| ID := ID t; Name := Name t; Description := Description t;
     PluginID := pluginID |}.

(** The loop of [RegisterTools]: [t.PluginID = pluginID; r.tools[t.ID] = t]. *)
Definition storeTools (pluginID : string) (ts : list Tool)
    (m : gmap string Tool) : gmap string Tool :=
  foldl (fun acc t => <[ID t := setPluginID pluginID t]> acc) m ts.

Definition RegisterTools (r : Registry) (pluginID : string)
    (ts : list Tool) : Registry :=
  broadcastLocked
    {| tools := storeTools pluginID ts (tools r);
       subs := subs r; chans := chans r |}.

Definition List (r : Registry) : list Tool :=
  (map_to_list (tools r)).*2.

(** [make(chan []Tool, 1)]: a channel identity not yet in the store. *)
Definition freshChan (r : Registry) : nat :=
  fresh (dom (chans r)).

Definition Subscribe (r : Registry) : Registry * nat :=
  let ch := freshChan r in
  ({| tools := tools r;
      subs := {[ch]} ∪ subs r;
      chans := <[ch := {| buf := Some (sliceLocked r); closed := false |}]>
                 (chans r) |}, ch).

(** [Unsubscribe]; [None] when the channel is already closed, where
    [close] panics, or is not one that [Subscribe] made. *)
Definition Unsubscribe (r : Registry) (ch : nat) : option Registry :=
  match chans r !! ch with
  | Some c =>
      if closed c then None
      else Some {| tools := tools r;
                   subs := subs r ∖ {[ch]};
                   chans := <[ch := {| buf := buf c; closed := true |}]>
                              (chans r) |}
  | None => None
  end.

(** Removing while ranging deletes exactly the entries whose owner
    matches. *)
Definition UnregisterTools (r : Registry) (pluginID : string) : Registry :=
  broadcastLocked
    {| tools := filter (fun kv => PluginID kv.2 ≠ pluginID) (tools r);
       subs := subs r; chans := chans r |}.

(** The subscriber side: [<-ch] when a snapshot is buffered. *)
Definition recv (r : Registry) (ch : nat) : option (list Tool * Registry) :=
  match chans r !! ch with
  | Some c =>
      match buf c with
      | Some s => Some (s, {| tools := tools r; subs := subs r;
                              chans := <[ch := {| buf := None;
                                                  closed := closed c |}]>
                                         (chans r) |})
      | None => None
      end
  | None => None
  end.

(** What a subscriber would read next from its channel. *)
Definition queued (r : Registry) (ch : nat) : option (list Tool) :=
  c ← chans r !! ch; buf c.

(** Registry mutations, for sequences of calls. *)
Inductive Op :=
| OpRegister (pluginID : string) (ts : list Tool)
| OpUnregister (pluginID : string).

Definition applyOp (r : Registry) (o : Op) : Registry :=
  match o with
  | OpRegister p ts => RegisterTools r p ts
  | OpUnregister p => UnregisterTools r p
  end.

Definition applyOps (r : Registry) (os : list Op) : Registry :=
  foldl applyOp r os.

(** The last tool of a list that carries a given id: the one whose
    assignment in the loop of [RegisterTools] survives. *)
Fixpoint lastWithID (id : string) (ts : list Tool) : option Tool :=
  match ts with
  | [] => None
  | t :: ts' =>
      match lastWithID id ts' with
      | Some t' => Some t'
      | None => if decide (ID t = id) then Some t else None
      end
  end.

End Registry.

(* ===================================================================== *)
(** ** internal/config/config.go *)
(* ===================================================================== *)

Module Config.

(** [type ServerConfig struct]; [Type] is spelled [Type_]. *)
Record ServerConfig := mkServerConfig {
  Disabled : bool;
  Timeout : Z;
  Env : gmap string string;
  Type_ : string;
  Command : string;
  Args : list string;
  URL : string;
  Headers : gmap string string;
  Image : string;
  Volumes : gmap string string;
  Network : string;
  Transport : string
}.

#[export] Instance ServerConfig_eq_dec : EqDecision ServerConfig.
Proof. solve_decision. Defined.

(** [type Config struct] *)
Record Config := mkConfig {
  MCPServers : gmap string ServerConfig
}.

Inductive Error :=
| ErrReadFile
| ErrParseFile
| ErrCommandRequired (name : string)
| ErrURLRequiredSSE (name : string)
| ErrURLRequiredHTTP (name : string)
| ErrImageRequired (name : string)
| ErrUnsupportedTransport (name transport : string).

Section WithGo.
Context `{GoLib}.

Definition normalizeTransport (t : string) : string :=
  let t := ToLower (TrimSpace t) in
  if decide (t = "stdio") then "stdio"
  else if decide (t = "sse") then "sse"
  else if decide (t = "http" ∨ t = "streamable-http"
                  ∨ t = "streamablehttp") then "http"
  else if decide (t = "docker" ∨ t = "container") then "docker"
  else t.

Definition TransportType (s : ServerConfig) : string :=
  if decide (Type_ s ≠ "") then normalizeTransport (Type_ s)
  else if decide (Transport s ≠ "") then normalizeTransport (Transport s)
  else if decide (Image s ≠ "") then "docker"
  else if decide (URL s ≠ "") then "http"
  else if decide (Command s ≠ "") then "stdio"
  else "stdio".

(** The volumes loop of [processEnvVars]: a new map that receives
    [newVolumes[ExpandEnv k] = ExpandEnv v] for every entry, in the
    order of the range. *)
Definition expandVolumes (vols : gmap string string) : gmap string string :=
  foldl (fun acc kv => <[ExpandEnv kv.1 := ExpandEnv kv.2]> acc)
        ∅ (map_to_list vols).

(** The body of the loop of [processEnvVars] for one server. *)
Definition expandServer (srv : ServerConfig) : ServerConfig :=
  {| Disabled := Disabled srv;
     Timeout := Timeout srv;
     Env := ExpandEnv <$> Env srv;
     Type_ := Type_ srv;
     Command := if decide (Command srv ≠ "") then ExpandEnv (Command srv)
                else Command srv;
     Args := ExpandEnv <$> Args srv;
     URL := if decide (URL srv ≠ "") then ExpandEnv (URL srv)
            else URL srv;
     Headers := ExpandEnv <$> Headers srv;
     Image := if decide (Image srv ≠ "") then ExpandEnv (Image srv)
              else Image srv;
     Volumes := expandVolumes (Volumes srv);
     Network := Network srv;
     Transport := Transport srv |}.

(** [processEnvVars] rewrites every entry of [c.MCPServers] under its
    own name; it never fails. *)
Definition processEnvVars (c : Config) : Config :=
  {| MCPServers := expandServer <$> MCPServers c |}.

(** What reading and decoding the file gave. *)
Inductive FileContent :=
| Unreadable
| Malformed
| Decoded (cfg : Config).

Definition Load (file : FileContent) : result Error Config :=
  match file with
  | Unreadable => Err ErrReadFile
  | Malformed => Err ErrParseFile
  | Decoded cfg => Ok (processEnvVars cfg)
  end.

(** The body of the loop of [Validate] for one entry. *)
Definition validateServer (name : string) (srv : ServerConfig)
    : option Error :=
  if Disabled srv then None
  else
    let transport := TransportType srv in
    if decide (transport = "stdio") then
      if decide (Command srv = "") then Some (ErrCommandRequired name)
      else None
    else if decide (transport = "sse") then
      if decide (URL srv = "") then Some (ErrURLRequiredSSE name)
      else None
    else if decide (transport = "http") then
      if decide (URL srv = "") then Some (ErrURLRequiredHTTP name)
      else None
    else if decide (transport = "docker") then
      if decide (Image srv = "") then Some (ErrImageRequired name)
      else None
    else Some (ErrUnsupportedTransport name transport).

Fixpoint firstError (l : list (string * ServerConfig)) : option Error :=
  match l with
  | [] => None
  | (name, srv) :: l' =>
      match validateServer name srv with
      | Some e => Some e
      | None => firstError l'
      end
  end.

(** [Validate]: the error of the first offending entry met by the
    range, [None] for [nil]. *)
Definition Validate (c : Config) : option Error :=
  firstError (map_to_list (MCPServers c)).

End WithGo.

Definition GetEnabledServers (c : Config) : gmap string ServerConfig :=
  filter (fun kv => Disabled kv.2 = false) (MCPServers c).

End Config.


(* ===================================================================== *)
(** ** internal/plugin/manager.go *)
(* ===================================================================== *)

Module Plugin.

(** [mcp.Tool] of the SDK: the two fields the manager reads. *)
Record McpTool := mkMcpTool {
  toolName : string;
  toolDescription : string
}.

(** The SDK transports that [StartServer] constructs. *)
Inductive SDKTransport :=
| CommandTransport (command : string) (args env : list string)
| StreamableClientTransport (endpoint : string)
| SSEClientTransport (endpoint : string).

(** What [session.CallTool] gave: an error, or a result with the bytes
    [json.Marshal] makes of it ([None] when marshalling fails) and its
    [IsError] flag. *)
Inductive CallOutcome :=
| CallFailed
| CallReturned (body : option string) (isError : bool).

(** A connected [*mcp.ClientSession], seen through the calls that the
    manager makes on it. *)
Record ClientSession := mkSession {
  sessListTools : option (list McpTool);
  sessCallTool : string → string → CallOutcome;
  sessCloseFails : bool
}.

(** The remote side: what [client.Connect] answers for a transport. *)
Class Peers := {
  Connect : SDKTransport → option ClientSession
}.

(** [type MCPServer struct] *)
Record MCPServer := mkMCPServer {
  name : string;
  session : ClientSession
}.

(** Calls that leave the manager, in the order they are made. *)
Inductive Event :=
| EvConnect (t : SDKTransport)
| EvListTools (server : string)
| EvRegisterTools (server : string)
| EvUnregisterTools (server : string)
| EvCallTool (server tool : string)
| EvClose (server : string).

(** [type Manager struct].  [reg] is the registry the manager points to;
    [log] is a ghost field that records the calls made so far. *)
Record Manager := mkManager {
  reg : Registry.Registry;
  servers : gmap string MCPServer;
  log : list Event
}.

Inductive Error :=
| ErrInvalidConfiguration (e : Config.Error)
| ErrAlreadyStarted (server : string)
| ErrUnsupportedTransport (transport : string)
| ErrConnect
| ErrListTools
| ErrServerNotFound (server : string)
| ErrParseArguments
| ErrToolCall
| ErrMarshalResult
| ErrToolReturnedError
| ErrCloseServer (server : string)
| ErrStopForReload (e : Error).

Definition NewManager (r : Registry.Registry) : Manager :=
  {| reg := r; servers := ∅; log := [] |}.

(** *** Primitive steps *)

Definition logged (m : Manager) (e : Event) : Manager :=
  {| reg := reg m; servers := servers m; log := log m ++ [e] |}.

Definition setServers (m : Manager) (s : gmap string MCPServer) : Manager :=
  {| reg := reg m; servers := s; log := log m |}.

(** [m.reg.RegisterTools(name, registryTools)] *)
Definition regRegisterTools (m : Manager) (server : string)
    (ts : list Registry.Tool) : Manager :=
  logged {| reg := Registry.RegisterTools (reg m) server ts;
            servers := servers m; log := log m |}
         (EvRegisterTools server).

(** [m.reg.UnregisterTools(name)] *)
Definition regUnregisterTools (m : Manager) (server : string) : Manager :=
  logged {| reg := Registry.UnregisterTools (reg m) server;
            servers := servers m; log := log m |}
         (EvUnregisterTools server).

(** [session.Close()]; the boolean tells whether it returned an error. *)
Definition sessionClose (m : Manager) (server : string) (s : ClientSession)
    : Manager * bool :=
  (logged m (EvClose server), sessCloseFails s).

(** *** Helper functions *)

Definition envMapToSlice (m : gmap string string) : list string :=
  (fun kv => kv.1 +:+ "=" +:+ kv.2) <$> map_to_list m.

Definition buildDockerArgs (cfg : Config.ServerConfig) : list string :=
  ["run"; "--rm"; "-i"]
  ++ flat_map (fun kv => ["-e"; kv.1 +:+ "=" +:+ kv.2])
              (map_to_list (Config.Env cfg))
  ++ flat_map (fun kv => ["-v"; kv.1 +:+ ":" +:+ kv.2])
              (map_to_list (Config.Volumes cfg))
  ++ (if decide (Config.Network cfg ≠ "")
      then ["--network"; Config.Network cfg] else [])
  ++ [Config.Image cfg]
  ++ Config.Args cfg.

Section WithWorld.
Context `{GoLib} `{Peers}.

(** The [switch cfg.TransportType()] of [StartServer]; [None] is the
    [default] branch. *)
Definition makeTransport (cfg : Config.ServerConfig) : option SDKTransport :=
  let ty := Config.TransportType cfg in
  if decide (ty = "stdio") then
    Some (CommandTransport (Config.Command cfg) (Config.Args cfg)
                           (envMapToSlice (Config.Env cfg)))
  else if decide (ty = "docker") then
    Some (CommandTransport "docker" (buildDockerArgs cfg) [])
  else if decide (ty = "http") then
    Some (StreamableClientTransport (Config.URL cfg))
  else if decide (ty = "sse") then
    Some (SSEClientTransport (Config.URL cfg))
  else None.

(** The projection of a discovered tool into a registry tool, as in the
    loop of [StartServer]. *)
Definition registryTool (server : string) (tool : McpTool) : Registry.Tool :=
  {| Registry.ID := toolName tool;
     Registry.Name := toolName tool;
     Registry.Description := toolDescription tool;
     Registry.PluginID := server |}.

Definition StartServer (m : Manager) (server : string)
    (cfg : Config.ServerConfig) : Manager * option Error :=
  match servers m !! server with
  | Some _ => (m, Some (ErrAlreadyStarted server))
  | None =>
      match makeTransport cfg with
      | None => (m, Some (ErrUnsupportedTransport (Config.TransportType cfg)))
      | Some transport =>
          let m := logged m (EvConnect transport) in
          match Connect transport with
          | None => (m, Some ErrConnect)
          | Some sess =>
              let m := logged m (EvListTools server) in
              match sessListTools sess with
              | None =>
                  let '(m, _) := sessionClose m server sess in
                  (m, Some ErrListTools)
              | Some discovered =>
                  let registryTools := registryTool server <$> discovered in
                  let m := regRegisterTools m server registryTools in
                  let m := setServers m
                             (<[server := {| name := server; session := sess |}]>
                                (servers m)) in
                  (m, None)
              end
          end
      end
  end.

Definition Execute (m : Manager) (pluginID tool arguments : string)
    : Manager * result Error string :=
  match servers m !! pluginID with
  | None => (m, Err (ErrServerNotFound pluginID))
  | Some srv =>
      if bool_decide (String.length arguments ≠ 0%nat)
         && negb (jsonIsObject arguments)
      then (m, Err ErrParseArguments)
      else
        let m := logged m (EvCallTool pluginID tool) in
        match sessCallTool (session srv) tool arguments with
        | CallFailed => (m, Err ErrToolCall)
        | CallReturned None _ => (m, Err ErrMarshalResult)
        | CallReturned (Some respBytes) isError =>
            if isError then (m, Err ErrToolReturnedError)
            else (m, Ok respBytes)
        end
  end.

Definition StopServer (m : Manager) (server : string)
    : Manager * option Error :=
  match servers m !! server with
  | None => (m, Some (ErrServerNotFound server))
  | Some srv =>
      let m := setServers m (delete server (servers m)) in
      let m := regUnregisterTools m server in
      let '(m, failed) := sessionClose m server (session srv) in
      if failed then (m, Some (ErrCloseServer server))
      else (m, None)
  end.

Definition GetServer (m : Manager) (server : string) : option MCPServer :=
  servers m !! server.

Definition ReloadServer (m : Manager) (server : string)
    (cfg : Config.ServerConfig) : Manager * option Error :=
  match GetServer m server with
  | Some _ =>
      match StopServer m server with
      | (m, Some e) => (m, Some (ErrStopForReload e))
      | (m, None) => StartServer m server cfg
      end
  | None => StartServer m server cfg
  end.

Definition ListServers (m : Manager) : list string :=
  (map_to_list (servers m)).*1.

(** [StopAll] closes every session and keeps the map and the registry
    as they are; close errors are only logged. *)
Definition StopAll (m : Manager) : Manager :=
  foldl (fun m kv => (sessionClose m (name kv.2) (session kv.2)).1)
        m (map_to_list (servers m)).

Definition LoadFromConfig (m : Manager) (cfg : Config.Config)
    : Manager * option Error :=
  match Config.Validate cfg with
  | Some e => (m, Some (ErrInvalidConfiguration e))
  | None =>
      (foldl (fun m kv => (StartServer m kv.1 kv.2).1)
             m (map_to_list (Config.GetEnabledServers cfg)), None)
  end.

End WithWorld.

End Plugin.


(* ===================================================================== *)
(** ** internal/watcher/watcher.go *)
(* ===================================================================== *)

Module Watcher.

(** [type PluginManager interface].  Go's [error] results are those of
    the plugin manager. *)
Class PluginManager (M : Type) := {
  StartServer : M → string → Config.ServerConfig → M * option Plugin.Error;
  StopServer : M → string → M * option Plugin.Error;
  ReloadServer : M → string → Config.ServerConfig → M * option Plugin.Error
}.

(** The calls that the watcher makes on its manager. *)
Inductive Call :=
| CallStop (server : string)
| CallStart (server : string) (cfg : Config.ServerConfig)
| CallReload (server : string) (cfg : Config.ServerConfig).

(** The server that a call is about. *)
Definition callServer (c : Call) : string :=
  match c with
  | CallStop server => server
  | CallStart server _ => server
  | CallReload server _ => server
  end.

(** *** [json.Marshal] of a [ServerConfig]

    The struct tags give the member names, all with [omitempty]; members
    come in declaration order, map keys sorted. *)

Section Marshal.
Context `{GoLib}.

Definition jsonStrings (l : list string) : string :=
  "[" +:+ String.concat "," (jsonQuote <$> l) +:+ "]".

Definition sortedEntries (m : gmap string string) : list (string * string) :=
  merge_sort (fun a b : string * string => String.le a.1 b.1) (map_to_list m).

Definition jsonStringMap (m : gmap string string) : string :=
  "{" +:+ String.concat ","
            ((fun kv => jsonQuote kv.1 +:+ ":" +:+ jsonQuote kv.2)
               <$> sortedEntries m)
      +:+ "}".

(** One member, or nothing when [omitempty] drops it. *)
Definition member (omit : bool) (key value : string) : list string :=
  if omit then [] else [jsonQuote key +:+ ":" +:+ value].

Definition Marshal (c : Config.ServerConfig) : string :=
  "{" +:+ String.concat ","
    (member (negb (Config.Disabled c)) "disabled" "true"
     ++ member (bool_decide (Config.Timeout c = 0)) "timeout"
               (pretty (Config.Timeout c))
     ++ member (bool_decide (Config.Env c = ∅)) "env"
               (jsonStringMap (Config.Env c))
     ++ member (bool_decide (Config.Type_ c = "")) "type"
               (jsonQuote (Config.Type_ c))
     ++ member (bool_decide (Config.Command c = "")) "command"
               (jsonQuote (Config.Command c))
     ++ member (bool_decide (Config.Args c = [])) "args"
               (jsonStrings (Config.Args c))
     ++ member (bool_decide (Config.URL c = "")) "url"
               (jsonQuote (Config.URL c))
     ++ member (bool_decide (Config.Headers c = ∅)) "headers"
               (jsonStringMap (Config.Headers c))
     ++ member (bool_decide (Config.Image c = "")) "image"
               (jsonQuote (Config.Image c))
     ++ member (bool_decide (Config.Volumes c = ∅)) "volumes"
               (jsonStringMap (Config.Volumes c))
     ++ member (bool_decide (Config.Network c = "")) "network"
               (jsonQuote (Config.Network c))
     ++ member (bool_decide (Config.Transport c = "")) "transport"
               (jsonQuote (Config.Transport c)))
  +:+ "}".

(** [configEqual]: marshalling these structs cannot fail, what is left
    is the comparison of the two byte strings. *)
Definition configEqual (a b : Config.ServerConfig) : bool :=
  bool_decide (Marshal a = Marshal b).

(** Whether the second loop of [applyConfigChanges] makes a call for an
    entry of the new config: it is new, or differs from the old one. *)
Definition needsCall (oldServers : gmap string Config.ServerConfig)
    (kv : string * Config.ServerConfig) : bool :=
  match oldServers !! kv.1 with
  | None => true
  | Some oldCfg => negb (configEqual oldCfg kv.2)
  end.

End Marshal.

Section WithManager.
Context `{GoLib} {M : Type} `{PluginManager M}.

(** [type Watcher struct]: the manager, the last applied config, and as
    a ghost field the calls made on the manager so far. *)
Record Watcher := mkWatcher {
  manager : M;
  lastConfig : Config.Config;
  calls : list Call
}.

(** [w.manager.StopServer(name)]; its error is only logged. *)
Definition callStop (w : Watcher) (server : string) : Watcher :=
  {| manager := (StopServer (manager w) server).1;
     lastConfig := lastConfig w;
     calls := calls w ++ [CallStop server] |}.

Definition callStart (w : Watcher) (server : string)
    (cfg : Config.ServerConfig) : Watcher :=
  {| manager := (StartServer (manager w) server cfg).1;
     lastConfig := lastConfig w;
     calls := calls w ++ [CallStart server cfg] |}.

Definition callReload (w : Watcher) (server : string)
    (cfg : Config.ServerConfig) : Watcher :=
  {| manager := (ReloadServer (manager w) server cfg).1;
     lastConfig := lastConfig w;
     calls := calls w ++ [CallReload server cfg] |}.

(** First loop of [applyConfigChanges], one iteration. *)
Definition removeStep (newServers : gmap string Config.ServerConfig)
    (w : Watcher) (kv : string * Config.ServerConfig) : Watcher :=
  match newServers !! kv.1 with
  | None => callStop w kv.1
  | Some _ => w
  end.

(** Second loop of [applyConfigChanges], one iteration. *)
Definition addOrUpdateStep (oldServers : gmap string Config.ServerConfig)
    (w : Watcher) (kv : string * Config.ServerConfig) : Watcher :=
  match oldServers !! kv.1 with
  | None => callStart w kv.1 kv.2
  | Some oldCfg =>
      if configEqual oldCfg kv.2 then w else callReload w kv.1 kv.2
  end.

Definition applyConfigChanges (w : Watcher) (newConfig : Config.Config)
    : Watcher :=
  let oldServers := Config.GetEnabledServers (lastConfig w) in
  let newServers := Config.GetEnabledServers newConfig in
  let w := foldl (removeStep newServers) w (map_to_list oldServers) in
  foldl (addOrUpdateStep oldServers) w (map_to_list newServers).

(** [handleConfigChange], on what reading [w.configPath] gives. *)
Definition handleConfigChange (w : Watcher) (file : Config.FileContent)
    : Watcher :=
  match Config.Load file with
  | Err _ => w
  | Ok newConfig =>
      match Config.Validate newConfig with
      | Some _ => w
      | None =>
          let w := applyConfigChanges w newConfig in
          {| manager := manager w;
             lastConfig := newConfig;
             calls := calls w |}
      end
  end.

End WithManager.

Arguments Watcher M : clear implicits.

(** [plugin.Manager] implements the interface. *)
#[export] Instance Manager_PluginManager `{GoLib} `{Plugin.Peers}
    : PluginManager Plugin.Manager :=
  {| StartServer := Plugin.StartServer;
     StopServer := Plugin.StopServer;
     ReloadServer := Plugin.ReloadServer |}.

End Watcher.


(* ===================================================================== *)
(** ** internal/transport: what the transports share *)
(* ===================================================================== *)

Module Wire.

(** The [ID interface{}] member after [json.Unmarshal]: absent or null,
    a number, or a string.  Numbers are the integers that request
    counters produce. *)
Inductive JsonID :=
| IDNil
| IDNumber (n : Z)
| IDString (s : string).

#[export] Instance JsonID_eq_dec : EqDecision JsonID.
Proof. solve_decision. Defined.

(** A JSON-RPC envelope: one line of a line-oriented transport, one
    event of the event stream.  A notification has no id. *)
Record Envelope := mkEnvelope {
  envID : JsonID;
  envMethod : string;
  envResult : string
}.

#[export] Instance Envelope_eq_dec : EqDecision Envelope.
Proof. solve_decision. Defined.

(** Durations and instants are nanoseconds, as [time.Duration]. *)
Definition second : Z := 1000000000.

(** The caller's [context.Context], relative to the call:
    [deadline] is [time.Until(deadline)] when a deadline is set,
    [cancelAt] is when the context is cancelled, if ever. *)
Record Context := mkContext {
  deadline : option Z;
  cancelAt : option Z
}.

Definition Background : Context :=
  {| deadline := None; cancelAt := None |}.

Definition WithTimeout (d : Z) : Context :=
  {| deadline := Some d; cancelAt := None |}.

(** When [ctx.Done()] becomes ready. *)
Definition doneAt (ctx : Context) : option Z :=
  match deadline ctx, cancelAt ctx with
  | Some d, Some c => Some (Z.min d c)
  | Some d, None => Some d
  | None, Some c => Some c
  | None, None => None
  end.

(** The cases of the [select] that ends [SendRequest]. *)
Inductive Fired (A : Type) :=
| GotResponse (a : A)
| GotError
| TimedOut
| CtxDone.
Arguments GotResponse {A} a.
Arguments GotError {A}.
Arguments TimedOut {A}.
Arguments CtxDone {A}.

(** A [select] over cases that become ready at known instants returns at
    the earliest instant; among the cases ready then Go chooses one at
    random, which is [pick].  [None] when no case ever gets ready. *)
Definition select {A} (cases : list (Z * Fired A)) (pick : nat)
    : option (Z * Fired A) :=
  match cases with
  | [] => None
  | c :: cs =>
      let at_ := foldr (fun x acc => Z.min x.1 acc) c.1 cs in
      let ready := filter (fun x => x.1 = at_) cases in
      ready !! (pick `mod` length ready)%nat
  end.

(** [time.After(d)] is ready after [d], at once when [d] is not
    positive. *)
Definition after {A} (d : Z) : list (Z * Fired A) :=
  [(Z.max 0 d, TimedOut)].

Definition whenDone {A} (ctx : Context) : list (Z * Fired A) :=
  match doneAt ctx with
  | Some d => [(Z.max 0 d, CtxDone)]
  | None => []
  end.

Inductive Error :=
| ErrAlreadyStarted
| ErrStartProcess
| ErrNotConnected
| ErrWrite
| ErrRead
| ErrTimeout (after : Z)
| ErrContext
| ErrHTTP (status : Z)
| ErrHTTPRequest.

(** A started child, seen from its standard output: the lines it
    prints, each with the delay after which a pending read gets it, and
    the delay after which a read fails once the lines are used up
    ([None]: the read blocks). *)
Record Child := mkChild {
  prints : list (Z * Envelope);
  exits : option Z
}.

(** A Go function that returns or panics. *)
Inductive Run (A : Type) :=
| Returns (a : A)
| Panics.
Arguments Returns {A} a.
Arguments Panics {A}.

End Wire.


(* ===================================================================== *)
(** ** internal/transport/stdio.go *)
(* ===================================================================== *)

Module Stdio.
Import Wire.

(** [type StdioTransport struct].  The child process is seen through its
    pipes: [stdin] holds the lines written so far, [brokenPipe] tells
    whether a write fails, [reader] holds the lines that the child
    prints, each with the delay after which a pending [ReadBytes] gets
    it, and [eof] is the delay after which [ReadBytes] fails once the
    lines are used up ([None]: it blocks). *)
Record StdioTransport := mkStdioTransport {
  command : string;
  args : list string;
  env : gmap string string;
  timeout : Z;
  stdin : list Envelope;
  brokenPipe : bool;
  reader : list (Z * Envelope);
  eof : option Z;
  requestID : Z;
  connected : bool
}.

Definition NewStdioTransport (command : string) (args : list string)
    (env : gmap string string) (timeout : Z) : StdioTransport :=
  {| command := command; args := args; env := env;
     timeout := if decide (timeout = 0) then 30 * second else timeout;
     stdin := []; brokenPipe := false; reader := []; eof := None;
     requestID := 0; connected := false |}.

(** [Start]; [child] is what [t.cmd.Start()] gave, [None] when the
    process could not be started. *)
Definition Start (t : StdioTransport) (child : option Child)
    : StdioTransport * option Error :=
  if connected t then (t, Some ErrAlreadyStarted)
  else match child with
       | None => (t, Some ErrStartProcess)
       | Some ch =>
           ({| command := command t; args := args t; env := env t;
               timeout := timeout t; stdin := []; brokenPipe := false;
               reader := prints ch; eof := exits ch;
               requestID := 0; connected := true |}, None)
       end.

(** [t.stdin.Write(append(reqBytes, '\n'))] *)
Definition written (t : StdioTransport) (req : Envelope) : StdioTransport :=
  {| command := command t; args := args t; env := env t;
     timeout := timeout t; stdin := stdin t ++ [req];
     brokenPipe := brokenPipe t; reader := reader t; eof := eof t;
     requestID := requestID t; connected := connected t |}.

(** The goroutine's [t.reader.ReadBytes('\n')] takes the next line. *)
Definition lineTaken (t : StdioTransport) : StdioTransport :=
  {| command := command t; args := args t; env := env t;
     timeout := timeout t; stdin := stdin t;
     brokenPipe := brokenPipe t; reader := tail (reader t); eof := eof t;
     requestID := requestID t; connected := connected t |}.

(** What the reading goroutine will put on [responseChan] or
    [errorChan], and when. *)
Definition readCase (t : StdioTransport) : list (Z * Fired Envelope) :=
  match reader t with
  | (d, line) :: _ => [(Z.max 0 d, GotResponse line)]
  | [] => match eof t with
          | Some d => [(Z.max 0 d, GotError)]
          | None => []
          end
  end.

(** "Apply timeout": the transport's timeout, replaced by the time left
    until the caller's deadline when the context has one. *)
Definition requestTimeout (t : StdioTransport) (ctx : Context) : Z :=
  match deadline ctx with
  | Some d => d
  | None => timeout t
  end.

(** [SendRequest] returns the transport, the time spent in the [select]
    and the result.  A read that the [select] no longer waits for still
    takes its line when it comes. *)
Definition SendRequest (t : StdioTransport) (ctx : Context) (req : Envelope)
    (pick : nat) : StdioTransport * Z * result Error Envelope :=
  if negb (connected t) then (t, 0, Err ErrNotConnected)
  else if brokenPipe t then (t, 0, Err ErrWrite)
  else
    let t := written t req in
    let timeout := requestTimeout t ctx in
    match select (readCase t ++ after timeout ++ whenDone ctx) pick with
    | Some (at_, GotResponse resp) => (lineTaken t, at_, Ok resp)
    | Some (at_, GotError) => (t, at_, Err ErrRead)
    | Some (at_, TimedOut) => (lineTaken t, at_, Err (ErrTimeout timeout))
    | Some (at_, CtxDone) => (lineTaken t, at_, Err ErrContext)
    | None => (t, 0, Err ErrRead)
    end.

(** [SendNotification]: the same write, nothing is read. *)
Definition SendNotification (t : StdioTransport) (notification : Envelope)
    : StdioTransport * option Error :=
  if negb (connected t) then (t, Some ErrNotConnected)
  else if brokenPipe t then (t, Some ErrWrite)
  else (written t notification, None).

(** [Close]: nothing to do when not connected; otherwise the flag is
    cleared and stdin is closed, so that no write can succeed, and the
    child is waited for or killed.  It never returns an error. *)
Definition Close (t : StdioTransport) : StdioTransport :=
  if negb (connected t) then t
  else {| command := command t; args := args t; env := env t;
          timeout := timeout t; stdin := stdin t;
          brokenPipe := true; reader := reader t; eof := eof t;
          requestID := requestID t; connected := false |}.

Definition IsConnected (t : StdioTransport) : bool := connected t.

Definition NextRequestID (t : StdioTransport) : StdioTransport * Z :=
  ({| command := command t; args := args t; env := env t;
      timeout := timeout t; stdin := stdin t;
      brokenPipe := brokenPipe t; reader := reader t; eof := eof t;
      requestID := requestID t + 1; connected := connected t |},
   requestID t + 1).

End Stdio.

(* ===================================================================== *)
(** ** internal/transport/docker.go *)
(* ===================================================================== *)

Module Docker.
Import Wire.

(** [type DockerTransport struct]; the container's pipes are seen as
    those of the stdio transport. *)
Record DockerTransport := mkDockerTransport {
  image : string;
  args : list string;
  env : gmap string string;
  volumes : gmap string string;
  network : string;
  removeOnExit : bool;
  timeout : Z;
  stdin : list Envelope;
  brokenPipe : bool;
  reader : list (Z * Envelope);
  eof : option Z;
  requestID : Z;
  connected : bool
}.

Definition NewDockerTransport (image : string) (args : list string)
    (env volumes : gmap string string) (network : string) (timeout : Z)
    : DockerTransport :=
  {| image := image; args := args; env := env; volumes := volumes;
     network := network; removeOnExit := true;
     timeout := if decide (timeout = 0) then 30 * second else timeout;
     stdin := []; brokenPipe := false; reader := []; eof := None;
     requestID := 0; connected := false |}.

Definition Start (t : DockerTransport) (child : option Child)
    : DockerTransport * option Error :=
  if connected t then (t, Some ErrAlreadyStarted)
  else match child with
       | None => (t, Some ErrStartProcess)
       | Some ch =>
           ({| image := image t; args := args t; env := env t;
               volumes := volumes t; network := network t;
               removeOnExit := removeOnExit t;
               timeout := timeout t; stdin := []; brokenPipe := false;
               reader := prints ch; eof := exits ch;
               requestID := 0; connected := true |}, None)
       end.

Definition written (t : DockerTransport) (req : Envelope) : DockerTransport :=
  {| image := image t; args := args t; env := env t; volumes := volumes t;
     network := network t; removeOnExit := removeOnExit t;
     timeout := timeout t; stdin := stdin t ++ [req];
     brokenPipe := brokenPipe t; reader := reader t; eof := eof t;
     requestID := requestID t; connected := connected t |}.

Definition lineTaken (t : DockerTransport) : DockerTransport :=
  {| image := image t; args := args t; env := env t; volumes := volumes t;
     network := network t; removeOnExit := removeOnExit t;
     timeout := timeout t; stdin := stdin t;
     brokenPipe := brokenPipe t; reader := tail (reader t); eof := eof t;
     requestID := requestID t; connected := connected t |}.

Definition readCase (t : DockerTransport) : list (Z * Fired Envelope) :=
  match reader t with
  | (d, line) :: _ => [(Z.max 0 d, GotResponse line)]
  | [] => match eof t with
          | Some d => [(Z.max 0 d, GotError)]
          | None => []
          end
  end.

Definition requestTimeout (t : DockerTransport) (ctx : Context) : Z :=
  match deadline ctx with
  | Some d => d
  | None => timeout t
  end.

Definition SendRequest (t : DockerTransport) (ctx : Context) (req : Envelope)
    (pick : nat) : DockerTransport * Z * result Error Envelope :=
  if negb (connected t) then (t, 0, Err ErrNotConnected)
  else if brokenPipe t then (t, 0, Err ErrWrite)
  else
    let t := written t req in
    let timeout := requestTimeout t ctx in
    match select (readCase t ++ after timeout ++ whenDone ctx) pick with
    | Some (at_, GotResponse resp) => (lineTaken t, at_, Ok resp)
    | Some (at_, GotError) => (t, at_, Err ErrRead)
    | Some (at_, TimedOut) => (lineTaken t, at_, Err (ErrTimeout timeout))
    | Some (at_, CtxDone) => (lineTaken t, at_, Err ErrContext)
    | None => (t, 0, Err ErrRead)
    end.

End Docker.


(* ===================================================================== *)
(** ** internal/transport/sse.go *)
(* ===================================================================== *)

Module SSE.
Import Wire.

(** [type SSETransport struct].  A [chan json.RawMessage] of capacity 1
    is its buffer: [None] when empty. *)
Record SSETransport := mkSSETransport {
  baseURL : string;
  headers : gmap string string;
  timeout : Z;
  requestID : Z;
  connected : bool;
  responses : gmap Z (option string)
}.

Definition setResponses (t : SSETransport) (r : gmap Z (option string))
    : SSETransport :=
  {| baseURL := baseURL t; headers := headers t; timeout := timeout t;
     requestID := requestID t; connected := connected t; responses := r |}.

(** [msg.ID.(float64)] and the like: a type assertion without the
    second result panics unless the value is a number. *)
Definition assertFloat64 (id : JsonID) : Run Z :=
  match id with
  | IDNumber n => Returns n
  | IDNil => Panics
  | IDString _ => Panics
  end.

(** [select { case ch <- msg.Result: default: }] *)
Definition trySend (v : string) (ch : option string) : option string :=
  match ch with
  | None => Some v
  | Some old => Some old
  end.

(** [handleSSEMessage]; [None] is data that [json.Unmarshal] rejects. *)
Definition handleSSEMessage (t : SSETransport) (data : option Envelope)
    : Run SSETransport :=
  match data with
  | None => Returns t
  | Some msg =>
      if decide (envID msg ≠ IDNil) then
        match assertFloat64 (envID msg) with
        | Panics => Panics
        | Returns n =>
            match responses t !! n with
            | Some ch =>
                Returns (setResponses t
                           (<[n := trySend (envResult msg) ch]> (responses t)))
            | None => Returns t
            end
        end
      else Returns t
  end.

(** The reader handling a run of events, one after the other. *)
Fixpoint handleAll (t : SSETransport) (events : list (option Envelope))
    : Run SSETransport :=
  match events with
  | [] => Returns t
  | e :: es =>
      match handleSSEMessage t e with
      | Panics => Panics
      | Returns t' => handleAll t' es
      end
  end.


(** What the POST to [/messages] gave. *)
Inductive Post :=
| PostFailed
| PostStatus (code : Z).

(** [SendRequest].  [during] are the events that the reader handles
    between the POST and the end of the [select]. *)
Definition SendRequest (t : SSETransport) (ctx : Context) (req : Envelope)
    (post : Post) (during : list (option Envelope)) (pick : nat)
    : Run (SSETransport * result Error string) :=
  if negb (connected t) then Returns (t, Err ErrNotConnected)
  else
    match assertFloat64 (envID req) with
    | Panics => Panics
    | Returns id =>
        let t := setResponses t (<[id := None]> (responses t)) in
        let cleanup (t : SSETransport) :=
          setResponses t (delete id (responses t)) in
        match post with
        | PostFailed => Returns (cleanup t, Err ErrHTTPRequest)
        | PostStatus code =>
            if decide (code ≠ 200 ∧ code ≠ 202)
            then Returns (cleanup t, Err (ErrHTTP code))
            else
              match handleAll t during with
              | Panics => Panics
              | Returns t =>
                  let slot :=
                    match responses t !! id with
                    | Some (Some v) => [(0, GotResponse v)]
                    | _ => []
                    end in
                  match select (slot ++ whenDone ctx ++ after (timeout t))
                               pick with
                  | Some (_, GotResponse v) => Returns (cleanup t, Ok v)
                  | Some (_, CtxDone) => Returns (cleanup t, Err ErrContext)
                  | _ => Returns (cleanup t, Err (ErrTimeout (timeout t)))
                  end
              end
        end
    end.

(** [SendNotification] reuses the request path. *)
Definition SendNotification (t : SSETransport) (ctx : Context)
    (notification : Envelope) (post : Post)
    (during : list (option Envelope)) (pick : nat)
    : Run (SSETransport * option Error) :=
  match SendRequest t ctx notification post during pick with
  | Panics => Panics
  | Returns (t, Ok _) => Returns (t, None)
  | Returns (t, Err e) => Returns (t, Some e)
  end.

End SSE.


(* ===================================================================== *)
(** ** internal/transport/http.go *)
(* ===================================================================== *)

Module HTTP.

(** [type HTTPTransport struct] *)
Record HTTPTransport := mkHTTPTransport {
  url : string;
  headers : gmap string string;
  timeout : Z;
  requestID : Z;
  connected : bool
}.

Definition NewHTTPTransport (url : string) (headers : gmap string string)
    (timeout : Z) : HTTPTransport :=
  {| url := url; headers := headers;
     timeout := if decide (timeout = 0) then 30 * Wire.second else timeout;
     requestID := 0; connected := false |}.

(** [Start] only marks the transport connected. *)
Definition Start (t : HTTPTransport) : HTTPTransport * option string :=
  if connected t then (t, Some "transport already started")
  else ({| url := url t; headers := headers t; timeout := timeout t;
           requestID := 0; connected := true |}, None).

Definition Close (t : HTTPTransport) : HTTPTransport :=
  {| url := url t; headers := headers t; timeout := timeout t;
     requestID := requestID t; connected := false |}.

(** What [t.client.Do] gave: an error with its text, or a response with
    its status and its body ([None] when reading the body fails). *)
Inductive Reply :=
| NoReply (err : string)
| Response (status : Z) (body : option string).

(** [sendRequestWithMethod], and [SendRequest] which has the same body
    with POST; errors are their messages, as [containsHTTPError] reads
    them.  For a status other than 200 a body that cannot be read
    counts as empty. *)
Definition sendRequestWithMethod (t : HTTPTransport) (reply : Reply)
    : result string string :=
  if negb (connected t) then Err "transport not connected"
  else match reply with
       | NoReply err => Err ("HTTP request failed: " +:+ err)
       | Response status body =>
           if decide (status ≠ 200)
           then Err ("HTTP error " +:+ pretty status +:+ ": "
                     +:+ default "" body)
           else match body with
                | Some b => Ok b
                | None => Err "failed to read response"
                end
       end.

Definition SendRequest (t : HTTPTransport) (post : Reply)
    : result string string :=
  sendRequestWithMethod t post.

(** [containsHTTPError]: whether the message begins with
    ["HTTP error <statusCode>"]; [None] is a nil error. *)
Definition containsHTTPError (err : option string) (statusCode : Z) : bool :=
  match err with
  | None => false
  | Some errMsg => String.prefix ("HTTP error " +:+ pretty statusCode) errMsg
  end.

(** The request of [Initialize]: POST first, GET when the POST was
    answered with "method not allowed"; the result is the response
    bytes that [Initialize] goes on to decode. *)
Definition initializeRequest (t : HTTPTransport) (post get : Reply)
    : result string string :=
  match sendRequestWithMethod t post with
  | Ok respBytes => Ok respBytes
  | Err err =>
      if containsHTTPError (Some err) 405 then
        match sendRequestWithMethod t get with
        | Ok respBytes => Ok respBytes
        | Err err' =>
            Err ("initialize request failed (tried POST and GET): " +:+ err')
        end
      else Err ("initialize request failed: " +:+ err)
  end.

End HTTP.

(* ===================================================================== *)
(** ** internal/server/server.go *)
(* ===================================================================== *)

Module Server.

(** [t.PluginID + ":" + t.Name] *)
Definition namespaced (t : Registry.Tool) : string :=
  Registry.PluginID t +:+ ":" +:+ Registry.Name t.

(** [strings.Index(name, ":")]: the position of the first colon, [None]
    for -1. *)
Fixpoint indexColon (s : string) : option nat :=
  match s with
  | EmptyString => None
  | String a s' =>
      if decide (a = ":"%char) then Some 0%nat else S <$> indexColon s'
  end.

(** The tool handler's reading of the name it is called with: plugin
    and tool around the first colon; without a colon the only running
    server, if there is exactly one; otherwise the call is refused. *)
Definition resolveTool (servers : list string) (name : string)
    : option (string * string) :=
  match indexColon name with
  | Some idx =>
      Some (substring 0 idx name,
            substring (S idx) (String.length name - S idx) name)
  | None =>
      match servers with
      | [only] => Some (only, name)
      | _ => None
      end
  end.

(** What one snapshot does to the SDK server: the names added with
    [AddTool], the names removed with [RemoveTools], and the new
    [registered] set.  A map to [true] is the set of its keys. *)
Record Sync := mkSync {
  registered : gset string;
  added : list string;
  removed : list string
}.

(** The first loop over the snapshot: a name not yet registered is
    added and registered. *)
Definition addStep (st : gset string * list string) (t : Registry.Tool)
    : gset string * list string :=
  if decide (namespaced t ∈ st.1) then st
  else ({[namespaced t]} ∪ st.1, (st.2 ++ [namespaced t])%list).

Definition syncSnapshot (registered : gset string)
    (snapshot : list Registry.Tool) : Sync :=
  let desired : gset string := list_to_set (namespaced <$> snapshot) in
  let st := foldl addStep (registered, []) snapshot in
  let toRemove := filter (fun n => n ∉ desired) (elements st.1) in
  {| registered := st.1 ∖ list_to_set toRemove;
     added := st.2;
     removed := toRemove |}.

End Server.

(* ===================================================================== *)
(** ** cmd/mcp-hub/main.go *)
(* ===================================================================== *)

Module Main.

(** [strings.Contains(p, ":")] *)
Definition containsColon (p : string) : bool :=
  match Server.indexColon p with
  | Some _ => true
  | None => false
  end.


End Main.

(* ===================================================================== *)
(** ** A runnable instance of the library interface *)
(* ===================================================================== *)

(** ASCII versions of the library functions, enough to run the
    definitions above on examples. *)
Module Runtime.

Definition between (lo hi : nat) (c : ascii) : bool :=
  (lo <=? nat_of_ascii c)%nat && (nat_of_ascii c <=? hi)%nat.

Definition isUpper : ascii → bool := between 65 90.
Definition isLower : ascii → bool := between 97 122.
Definition isDigit : ascii → bool := between 48 57.

Definition lowerChar (c : ascii) : ascii :=
  if isUpper c then ascii_of_nat (nat_of_ascii c + 32) else c.

Definition toLower (s : string) : string :=
  string_of_list_ascii (lowerChar <$> list_ascii_of_string s).

Definition isSpace (c : ascii) : bool :=
  between 9 13 c || (nat_of_ascii c =? 32)%nat.

Fixpoint dropWhile (p : ascii → bool) (l : list ascii) : list ascii :=
  match l with
  | c :: l' => if p c then dropWhile p l' else l
  | [] => []
  end.

Fixpoint takeWhile (p : ascii → bool) (l : list ascii) : list ascii :=
  match l with
  | c :: l' => if p c then c :: takeWhile p l' else []
  | [] => []
  end.

Definition trimLeft (l : list ascii) : list ascii :=
  dropWhile isSpace l.

Definition trimSpace (s : string) : string :=
  string_of_list_ascii
    (reverse (trimLeft (reverse (trimLeft (list_ascii_of_string s))))).

(** [os.Expand]: the characters after a dollar sign name a variable,
    either in braces or as a run of letters, digits and underscores. *)
Definition isAlphaNum (c : ascii) : bool :=
  (nat_of_ascii c =? 95)%nat || isDigit c || isLower c || isUpper c.

Definition isShellSpecialVar (c : ascii) : bool :=
  isDigit c
  || bool_decide (nat_of_ascii c ∈ [42; 35; 36; 64; 33; 63; 45]%nat).

Definition isChar (n : nat) (c : ascii) : bool :=
  (nat_of_ascii c =? n)%nat.

(** The name after the dollar sign and how many characters it takes. *)
Definition getShellName (s : list ascii) : list ascii * nat :=
  match s with
  | [] => ([], 0%nat)
  | c0 :: s1 =>
      if isChar 123 c0 then
        match s1 with
        | c1 :: c2 :: _ =>
            if isShellSpecialVar c1 && isChar 125 c2 then ([c1], 3%nat)
            else
              let inner := takeWhile (fun c => negb (isChar 125 c)) s1 in
              if (length inner <? length s1)%nat then
                match inner with
                | [] => ([], 2%nat)
                | _ => (inner, S (S (length inner)))
                end
              else ([], 1%nat)
        | _ =>
            let inner := takeWhile (fun c => negb (isChar 125 c)) s1 in
            if (length inner <? length s1)%nat then
              match inner with
              | [] => ([], 2%nat)
              | _ => (inner, S (S (length inner)))
              end
            else ([], 1%nat)
        end
      else if isShellSpecialVar c0 then ([c0], 1%nat)
      else
        let nm := takeWhile isAlphaNum s in
        (nm, length nm)
  end.

Fixpoint expandFrom (mapping : string → string) (skip : nat)
    (s : list ascii) : list ascii :=
  match s with
  | [] => []
  | c :: rest =>
      match skip with
      | S k => expandFrom mapping k rest
      | O =>
          if isChar 36 c && negb (bool_decide (rest = [])) then
            let '(nm, w) := getShellName rest in
            match nm, w with
            | [], O => c :: expandFrom mapping w rest
            | [], S _ => expandFrom mapping w rest
            | _, _ =>
                list_ascii_of_string (mapping (string_of_list_ascii nm))
                ++ expandFrom mapping w rest
            end
          else c :: expandFrom mapping 0 rest
      end
  end.

Definition expand (mapping : string → string) (s : string) : string :=
  string_of_list_ascii (expandFrom mapping 0 (list_ascii_of_string s)).

(** [os.Getenv] over an environment given as a list. *)
Definition getenv (environ : list (string * string)) (key : string) : string :=
  match list_find (fun kv => kv.1 = key) environ with
  | Some (_, kv) => kv.2
  | None => ""
  end.

Definition quoteChar (c : ascii) : list ascii :=
  if isChar 34 c || isChar 92 c then [ascii_of_nat 92; c] else [c].

Definition quote (s : string) : string :=
  string_of_list_ascii
    ([ascii_of_nat 34]
     ++ mbind quoteChar (list_ascii_of_string s)
     ++ [ascii_of_nat 34]).

(** Text in braces stands for an object. *)
Definition looksLikeObject (s : string) : bool :=
  match list_ascii_of_string (trimSpace s) with
  | c :: rest => isChar 123 c
                 && match last rest with
                    | Some d => isChar 125 d
                    | None => false
                    end
  | [] => false
  end.

Definition goLib (environ : list (string * string)) : GoLib :=
  {| ExpandEnv := expand (getenv environ);
     ToLower := toLower;
     TrimSpace := trimSpace;
     jsonQuote := quote;
     jsonIsObject := looksLikeObject |}.

End Runtime.



(* ===================================================================== *)
(** ** Concrete inputs *)
(* ===================================================================== *)

Module Examples.

(** A tool as a caller hands it to [RegisterTools], without owner. *)
Definition echo : Registry.Tool :=
  {| Registry.ID := "echo"; Registry.Name := "echo";
     Registry.Description := "repeats its input";
     Registry.PluginID := "" |}.

(** A registry with one subscriber that has not read anything yet. *)
Definition subscribed : Registry.Registry := (Registry.Subscribe Registry.New).1.
Definition subscriber : nat := (Registry.Subscribe Registry.New).2.

(** No environment variables are set. *)
Definition plainGo : GoLib := Runtime.goLib [].

(** A peer that exposes the single tool [echo]. *)
Definition echoSession : Plugin.ClientSession :=
  {| Plugin.sessListTools :=
       Some [{| Plugin.toolName := "echo";
                Plugin.toolDescription := "repeats its input" |}];
     Plugin.sessCallTool := fun _ arguments =>
       Plugin.CallReturned (Some arguments) false;
     Plugin.sessCloseFails := false |}.

(** Every child process speaks like [echoSession]; nothing answers over
    the network. *)
Definition echoPeers : Plugin.Peers :=
  {| Plugin.Connect := fun t =>
       match t with
       | Plugin.CommandTransport _ _ _ => Some echoSession
       | _ => None
       end |}.

(** [{"command": "echo-server"}] *)
Definition stdioEcho : Config.ServerConfig :=
  {| Config.Disabled := false; Config.Timeout := 0; Config.Env := ∅;
     Config.Type_ := ""; Config.Command := "echo-server"; Config.Args := [];
     Config.URL := ""; Config.Headers := ∅; Config.Image := "";
     Config.Volumes := ∅; Config.Network := ""; Config.Transport := "" |}.

Definition emptyManager : Plugin.Manager := Plugin.NewManager Registry.New.

(** The manager after server [a] has been started on [stdioEcho]. *)
Definition runningA : Plugin.Manager :=
  (@Plugin.StartServer plainGo echoPeers emptyManager "a" stdioEcho).1.

(** A manager on which every call fails. *)
Definition failing : Watcher.PluginManager unit :=
  {| Watcher.StartServer := fun m _ _ => (m, Some Plugin.ErrConnect);
     Watcher.StopServer := fun m server =>
       (m, Some (Plugin.ErrServerNotFound server));
     Watcher.ReloadServer := fun m _ _ => (m, Some Plugin.ErrConnect) |}.

Definition noServers : Config.Config := {| Config.MCPServers := ∅ |}.

(** [{"mcpServers": {"a": {"command": "echo-server"}}}] *)
Definition oneServer : Config.Config :=
  {| Config.MCPServers := {["a" := stdioEcho]} |}.

(** An entry that names no command. *)
Definition invalid : Config.Config :=
  {| Config.MCPServers :=
       {["a" := {| Config.Disabled := false; Config.Timeout := 0;
                  Config.Env := ∅; Config.Type_ := "stdio";
                  Config.Command := ""; Config.Args := [];
                  Config.URL := ""; Config.Headers := ∅;
                  Config.Image := ""; Config.Volumes := ∅;
                  Config.Network := ""; Config.Transport := "" |}]} |}.

(** The environment has [NET=prod] and [DATA=/srv]. *)
Definition prodGo : GoLib := Runtime.goLib [("NET", "prod"); ("DATA", "/srv")].

(** A container entry whose volume and network refer to variables. *)
Definition containerEntry : Config.ServerConfig :=
  {| Config.Disabled := false; Config.Timeout := 60; Config.Env := ∅;
     Config.Type_ := "docker"; Config.Command := ""; Config.Args := [];
     Config.URL := ""; Config.Headers := ∅; Config.Image := "db:latest";
     Config.Volumes := {["${DATA}" := "/data"]};
     Config.Network := "${NET}"; Config.Transport := "" |}.

Definition containerConfig : Config.Config :=
  {| Config.MCPServers := {["db" := containerEntry]} |}.

(** Envelopes on the wire. *)
Definition callEcho (id : Z) : Wire.Envelope :=
  {| Wire.envID := Wire.IDNumber id; Wire.envMethod := "tools/call";
     Wire.envResult := "" |}.

Definition reply (id : Z) (text : string) : Wire.Envelope :=
  {| Wire.envID := Wire.IDNumber id; Wire.envMethod := "";
     Wire.envResult := text |}.

Definition progress : Wire.Envelope :=
  {| Wire.envID := Wire.IDNil; Wire.envMethod := "notifications/progress";
     Wire.envResult := "" |}.

Definition replyNamed (id text : string) : Wire.Envelope :=
  {| Wire.envID := Wire.IDString id; Wire.envMethod := "";
     Wire.envResult := text |}.

(** A child process with the default timeout of 30 s that prints the
    given lines at once and then stays silent. *)
Definition stdioChild (lines : list Wire.Envelope) : Stdio.StdioTransport :=
  (Stdio.Start (Stdio.NewStdioTransport "echo-server" [] ∅ 0)
     (Some {| Wire.prints := (fun l => (0, l)) <$> lines;
              Wire.exits := None |})).1.

Definition dockerChild (lines : list Wire.Envelope) : Docker.DockerTransport :=
  (Docker.Start (Docker.NewDockerTransport "db:latest" [] ∅ ∅ "" 0)
     (Some {| Wire.prints := (fun l => (0, l)) <$> lines;
              Wire.exits := None |})).1.

(** An event-stream transport that waits for the reply to request 1. *)
Definition sseWaiting : SSE.SSETransport :=
  {| SSE.baseURL := "http://localhost:3000"; SSE.headers := ∅;
     SSE.timeout := 30 * Wire.second; SSE.requestID := 1;
     SSE.connected := true; SSE.responses := {[1 := None]} |}.

(** The registry after its only subscriber has unsubscribed, and after
    it has read its snapshot instead. *)
Definition unsubscribed : Registry.Registry :=
  default Registry.New (Registry.Unsubscribe subscribed subscriber).

Definition drained : Registry.Registry :=
  match Registry.recv subscribed subscriber with
  | Some (_, r) => r
  | None => Registry.New
  end.

(** A watcher on the plugin manager with server [a] running, as
    configured by [oneServer]. *)
Definition watching : Watcher.Watcher Plugin.Manager :=
  {| Watcher.manager := runningA; Watcher.lastConfig := oneServer;
     Watcher.calls := [] |}.

(** A started HTTP transport. *)
Definition httpUp : HTTP.HTTPTransport :=
  (HTTP.Start (HTTP.NewHTTPTransport "http://localhost:3000/mcp" ∅ 0)).1.

End Examples.


(* ===================================================================== *)
(** * Properties *)
(* ===================================================================== *)

(** ** The registry *)

Section RegistryFacts.
Import Registry.

Lemma lastWithID_Some id ts t :
  lastWithID id ts = Some t → t ∈ ts ∧ ID t = id.
Proof.
  induction ts as [|t0 ts IH]; simpl; [done|].
  destruct (lastWithID id ts) as [t'|] eqn:E.
  - intros [= <-]. destruct (IH eq_refl) as [? ?]. split; [by right|done].
  - case_decide; [|done]. intros [= <-]. split; [by left|done].
Qed.

Lemma lastWithID_is_Some id ts t :
  t ∈ ts → ID t = id → is_Some (lastWithID id ts).
Proof.
  induction ts as [|t0 ts IH]; simpl; [by intros ?%elem_of_nil|].
  intros [->|Hin]%elem_of_cons Hid.
  - destruct (lastWithID id ts); [eauto|]. rewrite decide_True; eauto.
  - destruct (IH Hin Hid) as [t' ->]. eauto.
Qed.

Lemma lookup_storeTools o ts (m : gmap string Tool) id :
  storeTools o ts m !! id =
    match lastWithID id ts with
    | Some t => Some (setPluginID o t)
    | None => m !! id
    end.
Proof.
  revert m. induction ts as [|t ts IH]; intros m; simpl; [done|].
  unfold storeTools in *. simpl. rewrite IH.
  destruct (lastWithID id ts); [done|].
  case_decide as Hid.
  - subst id. by rewrite lookup_insert_eq.
  - by rewrite lookup_insert_ne.
Qed.

Lemma storeTools_idempotent o ts (m : gmap string Tool) :
  storeTools o ts (storeTools o ts m) = storeTools o ts m.
Proof.
  apply map_eq. intros id. rewrite !lookup_storeTools.
  by destruct (lastWithID id ts).
Qed.

Lemma tools_broadcastLocked r : tools (broadcastLocked r) = tools r.
Proof. reflexivity. Qed.

Lemma subs_broadcastLocked r : subs (broadcastLocked r) = subs r.
Proof. reflexivity. Qed.

(** A broadcast offers the snapshot to the subscribed channels and
    leaves the other channels alone. *)
Lemma chans_broadcastLocked r ch :
  chans (broadcastLocked r) !! ch =
    if decide (ch ∈ subs r)
    then trySend (sliceLocked r) <$> chans r !! ch
    else chans r !! ch.
Proof.
  unfold broadcastLocked. simpl.
  generalize (sliceLocked r). intros s.
  refine (set_fold_ind_L
            (fun cs (X : gset nat) => cs !! ch =
               if decide (ch ∈ X) then trySend s <$> chans r !! ch
               else chans r !! ch) _ _ _ _ (subs r)).
  - rewrite decide_False; [done|set_solver].
  - intros x X cs Hx IH.
    destruct (decide (x = ch)) as [->|Hne].
    + rewrite lookup_alter_eq, IH.
      rewrite decide_False by done.
      rewrite decide_True; [done|]. apply elem_of_union_l, elem_of_singleton_2.
      done.
    + rewrite lookup_alter_ne by done. rewrite IH.
      destruct (decide (ch ∈ X)).
      * rewrite decide_True; [done|]. by apply elem_of_union_r.
      * rewrite decide_False; [done|].
        intros [?%elem_of_singleton_1|?]%elem_of_union; congruence.
Qed.

Lemma queued_broadcastLocked r ch c :
  ch ∈ subs r → chans r !! ch = Some c →
  queued (broadcastLocked r) ch =
    Some (match buf c with Some old => old | None => sliceLocked r end).
Proof.
  intros Hin Hc. unfold queued.
  rewrite chans_broadcastLocked, decide_True, Hc by done. simpl.
  unfold trySend. destruct (buf c) eqn:Hb; simpl; [|done]. by rewrite Hb.
Qed.

Lemma subs_applyOp r o : subs (applyOp r o) = subs r.
Proof. by destruct o. Qed.

(** Every mutation ends in a broadcast of the state it leaves. *)
Lemma queued_applyOp r o ch c :
  ch ∈ subs r → chans r !! ch = Some c →
  queued (applyOp r o) ch =
    Some (match buf c with Some old => old | None => List (applyOp r o) end).
Proof.
  intros Hin Hc. destruct o as [p ts|p]; unfold applyOp;
    unfold RegisterTools, UnregisterTools;
    by erewrite queued_broadcastLocked.
Qed.

Lemma chan_applyOp r o ch c :
  ch ∈ subs r → chans r !! ch = Some c →
  chans (applyOp r o) !! ch = Some (trySend (List (applyOp r o)) c).
Proof.
  intros Hin Hc. destruct o as [p ts|p]; unfold applyOp;
    unfold RegisterTools, UnregisterTools;
    rewrite chans_broadcastLocked; cbn [subs chans];
    by rewrite decide_True, Hc.
Qed.

(** A snapshot that is not consumed stays where it is, whatever
    follows. *)
Lemma queued_applyOps_full os : ∀ r ch c old,
  ch ∈ subs r → chans r !! ch = Some c → buf c = Some old →
  queued (applyOps r os) ch = Some old.
Proof.
  induction os as [|o os IH]; intros r ch c old Hin Hc Hb.
  - unfold queued. simpl. by rewrite Hc.
  - simpl. eapply (IH _ _ (trySend (List (applyOp r o)) c)).
    + by rewrite subs_applyOp.
    + by apply chan_applyOp.
    + unfold trySend. by rewrite Hb.
Qed.

(** C10.  After [RegisterTools(o, ts)] every tool of [ts] is found under
    its own ID with owner [o], whatever owner it came with; the entry
    under an ID is the one assigned last, ids that [ts] does not mention
    keep their entry; and registering the same list again under the same
    owner leaves the tool map as it is. *)
Theorem RegisterTools_owner_keyed_idempotent (r : Registry) (o : string)
    (ts : list Tool) :
  (∀ t, t ∈ ts →
     ∃ t', tools (RegisterTools r o ts) !! ID t = Some t'
           ∧ PluginID t' = o ∧ ID t' = ID t)
  ∧ (∀ t, tools (RegisterTools r o (ts ++ [t])) !! ID t
          = Some (setPluginID o t))
  ∧ (∀ id, id ∉ ID <$> ts →
       tools (RegisterTools r o ts) !! id = tools r !! id)
  ∧ tools (RegisterTools (RegisterTools r o ts) o ts)
    = tools (RegisterTools r o ts).
Proof.
  unfold RegisterTools. rewrite !tools_broadcastLocked. cbn [tools].
  repeat split.
  - intros t Hin. rewrite lookup_storeTools.
    destruct (lastWithID_is_Some (ID t) ts t Hin eq_refl) as [t0 Ht0].
    rewrite Ht0. apply lastWithID_Some in Ht0 as [_ Hid].
    exists (setPluginID o t0). by repeat split.
  - intros t. rewrite tools_broadcastLocked. cbn [tools].
    unfold storeTools. rewrite foldl_app. simpl. apply lookup_insert_eq.
  - intros id Hid. rewrite lookup_storeTools.
    destruct (lastWithID id ts) as [t0|] eqn:E; [|done].
    apply lastWithID_Some in E as [Hin <-].
    exfalso. apply Hid. apply list_elem_of_fmap. eauto.
  - by rewrite storeTools_idempotent.
Qed.

(** C2, as the code has it.  A mutation offers its snapshot without
    blocking: a subscribed channel whose buffer is empty receives the
    new state, a channel that still holds a snapshot keeps that one and
    the new one is dropped for it.  Hence a subscriber that does not
    read keeps the snapshot of its subscription through any sequence of
    mutations. *)
Theorem broadcast_best_effort (r : Registry) :
  (∀ o ch c, ch ∈ subs r → chans r !! ch = Some c →
     queued (applyOp r o) ch =
       Some (match buf c with
             | Some old => old
             | None => List (applyOp r o)
             end))
  ∧ (∀ os, queued (applyOps (Subscribe r).1 os) (Subscribe r).2
           = Some (List r)).
Proof.
  split.
  - intros o ch c. apply queued_applyOp.
  - intros os. eapply queued_applyOps_full.
    + cbn [Subscribe fst snd subs]. apply elem_of_union_l.
      by apply elem_of_singleton_2.
    + cbn [Subscribe fst snd chans]. apply lookup_insert_eq.
    + reflexivity.
Qed.

Lemma RegisterTools_owner_keyed_idempotent_witness :
  (∃ t', tools (RegisterTools New "a" [Examples.echo]) !! "echo" = Some t'
         ∧ PluginID t' = "a" ∧ ID t' = "echo")
  ∧ tools (RegisterTools New "a" [Examples.echo]) !! "other" = None.
Proof.
  destruct (RegisterTools_owner_keyed_idempotent New "a" [Examples.echo])
    as (Hown & _ & Hother & _).
  split.
  - apply (Hown Examples.echo). by left.
  - apply (Hother "other"). cbn.
    intros [?|?%elem_of_nil]%elem_of_cons; [discriminate|done].
Defined.

(** C2, as stated, fails: subscribe to an empty registry, register one
    tool, and the snapshot waiting for the subscriber is still the empty
    one. *)
Lemma latest_snapshot_not_guaranteed :
  ¬ (∀ (r : Registry) (os : list Op),
       ∃ s, queued (applyOps (Subscribe r).1 os) (Subscribe r).2 = Some s
            ∧ ∀ t, t ∈ s ↔ t ∈ List (applyOps (Subscribe r).1 os)).
Proof.
  intros Hclaim.
  destruct (Hclaim New [OpRegister "a" [Examples.echo]]) as (s & Hq & Hs).
  vm_compute in Hq. injection Hq as <-.
  specialize (Hs (setPluginID "a" Examples.echo)) as [_ Hs].
  eapply elem_of_nil, Hs. vm_compute. by left.
Qed.

Lemma broadcast_best_effort_witness :
  queued (applyOp Examples.subscribed (OpRegister "a" [Examples.echo]))
         Examples.subscriber = Some [].
Proof.
  apply (proj1 (broadcast_best_effort Examples.subscribed)
           (OpRegister "a" [Examples.echo]) Examples.subscriber
           {| buf := Some []; closed := false |}).
  - apply (bool_decide_unpack (Examples.subscriber ∈ subs Examples.subscribed)).
    vm_compute. exact I.
  - vm_compute. reflexivity.
Defined.

End RegistryFacts.


(** ** The plugin manager *)

Section PluginFacts.
Context `{GoLib} `{Plugin.Peers}.
Import Plugin.

Lemma lookup_registryTools server discovered tool (m : gmap string Registry.Tool) :
  tool ∈ discovered →
  ∃ t', Registry.storeTools server (registryTool server <$> discovered) m
          !! toolName tool = Some t'
        ∧ Registry.ID t' = toolName tool
        ∧ Registry.Name t' = toolName tool
        ∧ Registry.PluginID t' = server.
Proof.
  intros Hin. rewrite lookup_storeTools.
  assert (registryTool server tool ∈ registryTool server <$> discovered)
    as Hin' by (apply list_elem_of_fmap; eauto).
  destruct (lastWithID_is_Some (toolName tool) _ _ Hin' eq_refl) as [t0 Ht0].
  rewrite Ht0. apply lastWithID_Some in Ht0 as [Hfrom Hid].
  apply list_elem_of_fmap in Hfrom as (tool0 & -> & _).
  eexists. split; [done|]. by repeat split.
Qed.

(** C1, as the code has it.  When [StartServer(name, entry)] succeeds,
    every tool discovered from the server is in the registry under the
    server-local tool name: its id and its name are that name, and its
    owner is the server. *)
Theorem StartServer_registers_under_tool_name (m m' : Manager)
    (server : string) (cfg : Config.ServerConfig) :
  StartServer m server cfg = (m', None) →
  ∃ transport sess discovered,
    makeTransport cfg = Some transport
    ∧ Connect transport = Some sess
    ∧ sessListTools sess = Some discovered
    ∧ servers m' !! server = Some {| name := server; session := sess |}
    ∧ ∀ tool, tool ∈ discovered →
        ∃ t', Registry.tools (reg m') !! toolName tool = Some t'
              ∧ Registry.ID t' = toolName tool
              ∧ Registry.Name t' = toolName tool
              ∧ Registry.PluginID t' = server.
Proof.
  unfold StartServer.
  destruct (servers m !! server); [intros ?; simplify_eq|].
  destruct (makeTransport cfg) as [transport|] eqn:Htr;
    [|intros ?; simplify_eq].
  destruct (Connect transport) as [sess|] eqn:Hconn;
    [|intros ?; simplify_eq].
  destruct (sessListTools sess) as [discovered|] eqn:Hlist;
    [|intros ?; simplify_eq].
  intros [= <-]. exists transport, sess, discovered.
  do 3 (split; [done|]). split; [|intros tool Hin].
  - cbn [servers setServers]. apply lookup_insert_eq.
  - cbn [reg setServers regRegisterTools logged].
    unfold Registry.RegisterTools. rewrite tools_broadcastLocked.
    cbn [Registry.tools]. by apply lookup_registryTools.
Qed.

Lemma tools_UnregisterTools r pluginID id t :
  Registry.tools (Registry.UnregisterTools r pluginID) !! id = Some t →
  Registry.tools r !! id = Some t ∧ Registry.PluginID t ≠ pluginID.
Proof.
  unfold Registry.UnregisterTools. rewrite tools_broadcastLocked.
  cbn [Registry.tools]. intros Hf.
  by apply map_lookup_filter_Some in Hf as [? ?].
Qed.

(** C6.  [StopServer(name)] answers "server not found" when no session
    has that name.  Otherwise it removes the server's tools from the
    registry and only then closes the session; when it returns without
    error no tool owned by [name] is left in the registry, and [Execute]
    on that name fails with "server not found". *)
Theorem StopServer_unregisters_then_closes (m : Manager) (server : string) :
  (servers m !! server = None →
     StopServer m server = (m, Some (ErrServerNotFound server)))
  ∧ (∀ m', StopServer m server = (m', None) →
       log m' = (log m ++ [EvUnregisterTools server; EvClose server])%list
       ∧ (∀ id t, Registry.tools (reg m') !! id = Some t →
            Registry.PluginID t ≠ server)
       ∧ ∀ tool arguments,
           Execute m' server tool arguments
           = (m', Err (ErrServerNotFound server))).
Proof.
  unfold StopServer. split.
  - by intros ->.
  - intros m'. destruct (servers m !! server) as [srv|];
      [|intros ?; simplify_eq].
    unfold sessionClose. destruct (sessCloseFails (session srv));
      [intros ?; simplify_eq|].
    intros [= <-]. split; [|split].
    + cbn [log logged regUnregisterTools setServers].
      by rewrite <- app_assoc.
    + intros id t Ht. cbn [reg logged regUnregisterTools setServers] in Ht.
      by apply tools_UnregisterTools in Ht as [_ ?].
    + intros tool arguments. unfold Execute.
      cbn [servers logged regUnregisterTools setServers].
      by rewrite lookup_delete_eq.
Qed.

End PluginFacts.

Section PluginExamples.
Import Plugin.

Lemma StartServer_registers_under_tool_name_witness :
  ∃ t', Registry.tools (reg Examples.runningA) !! "echo" = Some t'
        ∧ Registry.ID t' = "echo"
        ∧ Registry.Name t' = "echo"
        ∧ Registry.PluginID t' = "a".
Proof.
  destruct (@StartServer_registers_under_tool_name
              Examples.plainGo Examples.echoPeers
              Examples.emptyManager Examples.runningA "a" Examples.stdioEcho)
    as (transport & sess & discovered & _ & _ & Hlist & Hsrv & Htools).
  - vm_compute. reflexivity.
  - vm_compute in Hsrv. injection Hsrv as <-.
    vm_compute in Hlist. injection Hlist as <-.
    apply (Htools {| toolName := "echo";
                     toolDescription := "repeats its input" |}).
    by left.
Defined.

(** C1, as stated, fails: the tool [echo] of server [a] gets the id
    [echo], not [a:echo]; and when server [b] brings a tool of the same
    name, the registry holds one tool, owned by [b]. *)
Lemma StartServer_id_is_not_namespaced :
  let m1 := Examples.runningA in
  let m2 := (@StartServer Examples.plainGo Examples.echoPeers
               m1 "b" Examples.stdioEcho) in
  Registry.tools (reg m1) !! ("a" +:+ ":" +:+ "echo") = None
  ∧ Registry.ID <$> Registry.List (reg m1) = ["echo"]
  ∧ m2.2 = None
  ∧ Registry.List (reg m2.1)
    = [{| Registry.ID := "echo"; Registry.Name := "echo";
          Registry.Description := "repeats its input";
          Registry.PluginID := "b" |}].
Proof. vm_compute. repeat split; reflexivity. Qed.


Lemma StopServer_unregisters_then_closes_witness :
  let m' := (StopServer Examples.runningA "a").1 in
  log m' = (log Examples.runningA
            ++ [EvUnregisterTools "a"; EvClose "a"])%list
  ∧ @Execute Examples.plainGo m' "a" "echo" "{}"
    = (m', Err (ErrServerNotFound "a")).
Proof.
  destruct (proj2 (@StopServer_unregisters_then_closes
                     Examples.plainGo Examples.runningA "a")
              (StopServer Examples.runningA "a").1)
    as (Hlog & _ & Hexec).
  - vm_compute. reflexivity.
  - split; [exact Hlog|apply Hexec].
Defined.

End PluginExamples.


(** ** The configuration and its watcher *)

Section ConfigFacts.
Context `{GoLib}.
Import Config.

Lemma expandVolumes_from (l : list (string * string)) :
  ∀ (acc : gmap string string) k' v',
    foldl (fun acc kv => <[ExpandEnv kv.1 := ExpandEnv kv.2]> acc) acc l
      !! k' = Some v' →
    (∃ k v, (k, v) ∈ l ∧ k' = ExpandEnv k ∧ v' = ExpandEnv v)
    ∨ acc !! k' = Some v'.
Proof.
  induction l as [|[k v] l IH]; intros acc k' v' Hl; simpl in Hl; [by right|].
  apply IH in Hl as [(k0 & v0 & Hin & -> & ->)|Hl].
  - left. exists k0, v0. split; [by right|done].
  - destruct (decide (ExpandEnv k = k')) as [<-|Hne].
    + rewrite lookup_insert_eq in Hl. injection Hl as <-.
      left. exists k, v. split; [by left|done].
    + rewrite lookup_insert_ne in Hl by done. by right.
Qed.

Lemma expandVolumes_keeps (l : list (string * string)) :
  ∀ (acc : gmap string string) x,
    is_Some (acc !! x) →
    is_Some (foldl (fun acc kv => <[ExpandEnv kv.1 := ExpandEnv kv.2]> acc)
                   acc l !! x).
Proof.
  induction l as [|[k v] l IH]; intros acc x Hx; simpl; [done|].
  apply IH. destruct (decide (ExpandEnv k = x)) as [<-|Hne].
  - rewrite lookup_insert_eq. eauto.
  - by rewrite lookup_insert_ne.
Qed.

Lemma expandVolumes_covers (l : list (string * string)) :
  ∀ (acc : gmap string string) k v,
    (k, v) ∈ l →
    is_Some (foldl (fun acc kv => <[ExpandEnv kv.1 := ExpandEnv kv.2]> acc)
                   acc l !! ExpandEnv k).
Proof.
  induction l as [|[k0 v0] l IH]; intros acc k v Hin; simpl.
  - by apply elem_of_nil in Hin.
  - apply elem_of_cons in Hin as [[= -> ->]|Hin]; [|by eapply IH].
    apply expandVolumes_keeps. rewrite lookup_insert_eq. eauto.
Qed.

(** C9, as the code has it.  Loading replaces the variable references
    in the command, each argument, the URL, the header values, the env
    values, the image, and the volume keys and values of every server
    entry (an empty command, URL or image stays empty); the network
    field, like the type, the transport name, the flag and the timeout,
    is kept as written. *)
Theorem processEnvVars_expands (c : Config) (server : string)
    (srv : ServerConfig) :
  MCPServers c !! server = Some srv →
  ∃ srv', MCPServers (processEnvVars c) !! server = Some srv'
    ∧ Command srv' = (if decide (Command srv = "") then ""
                      else ExpandEnv (Command srv))
    ∧ Args srv' = ExpandEnv <$> Args srv
    ∧ URL srv' = (if decide (URL srv = "") then "" else ExpandEnv (URL srv))
    ∧ (∀ k, Headers srv' !! k = ExpandEnv <$> Headers srv !! k)
    ∧ (∀ k, Env srv' !! k = ExpandEnv <$> Env srv !! k)
    ∧ Image srv' = (if decide (Image srv = "") then ""
                    else ExpandEnv (Image srv))
    ∧ (∀ k v, Volumes srv !! k = Some v →
         is_Some (Volumes srv' !! ExpandEnv k))
    ∧ (∀ k' v', Volumes srv' !! k' = Some v' →
         ∃ k v, Volumes srv !! k = Some v
                ∧ k' = ExpandEnv k ∧ v' = ExpandEnv v)
    ∧ Network srv' = Network srv
    ∧ Type_ srv' = Type_ srv
    ∧ Transport srv' = Transport srv
    ∧ Disabled srv' = Disabled srv
    ∧ Timeout srv' = Timeout srv.
Proof.
  intros Hsrv. exists (expandServer srv).
  split; [unfold processEnvVars; cbn; by rewrite lookup_fmap, Hsrv|].
  unfold expandServer; cbn.
  split; [by repeat case_decide|]. split; [done|].
  split; [by repeat case_decide|].
  split; [intros k; apply lookup_fmap|].
  split; [intros k; apply lookup_fmap|].
  split; [by repeat case_decide|].
  split; [|split; [|done]].
  - intros k v Hk. unfold expandVolumes.
    apply (expandVolumes_covers _ _ k v). by apply elem_of_map_to_list.
  - intros k' v' Hk. unfold expandVolumes in Hk.
    apply expandVolumes_from in Hk as [(k & v & Hin & -> & ->)|Hk].
    + exists k, v. by apply elem_of_map_to_list in Hin.
    + by rewrite lookup_empty in Hk.
Qed.

End ConfigFacts.

Section WatcherFacts.
Context `{GoLib} {M : Type} `{Watcher.PluginManager M}.
Import Watcher.

Lemma foldl_fixed {A B} (f : A → B → A) (a : A) (l : list B) :
  (∀ x, x ∈ l → f a x = a) → foldl f a l = a.
Proof.
  induction l as [|x l IH]; intros Hf; simpl; [done|].
  rewrite Hf by (by left). apply IH. intros y Hy. apply Hf. by right.
Qed.

Lemma configEqual_refl (a : Config.ServerConfig) : configEqual a a = true.
Proof. unfold configEqual. by apply bool_decide_eq_true_2. Qed.

(** C7.  Reconciling a config with itself makes no call on the manager:
    no [StopServer], no [StartServer], no [ReloadServer]; the manager
    stays as it is. *)
Theorem applyConfigChanges_same_config (m : M) (c : Config.Config) :
  applyConfigChanges {| manager := m; lastConfig := c; calls := [] |} c
  = {| manager := m; lastConfig := c; calls := [] |}.
Proof.
  unfold applyConfigChanges. cbn [lastConfig].
  rewrite (foldl_fixed (removeStep _)).
  - apply foldl_fixed. intros [k v] Hk%elem_of_map_to_list.
    unfold addOrUpdateStep. cbn [fst snd]. rewrite Hk.
    by rewrite configEqual_refl.
  - intros [k v] Hk%elem_of_map_to_list.
    unfold removeStep. cbn [fst]. by rewrite Hk.
Qed.

(** C8.  When the new file cannot be loaded, or loads but does not
    validate, the watcher is left as it was: same last applied config,
    no call on the manager.  When it loads and validates, the new config
    becomes the last applied one after the changes have been applied,
    whatever the manager answers to the calls. *)
Theorem handleConfigChange_commit (w : Watcher M)
    (file : Config.FileContent) :
  (∀ e, Config.Load file = Err e → handleConfigChange w file = w)
  ∧ (∀ c e, Config.Load file = Ok c → Config.Validate c = Some e →
       handleConfigChange w file = w)
  ∧ (∀ c, Config.Load file = Ok c → Config.Validate c = None →
       lastConfig (handleConfigChange w file) = c
       ∧ manager (handleConfigChange w file)
         = manager (applyConfigChanges w c)
       ∧ calls (handleConfigChange w file)
         = calls (applyConfigChanges w c)).
Proof.
  unfold handleConfigChange. split; [|split].
  - by intros e ->.
  - by intros c e -> ->.
  - by intros c -> ->.
Qed.

End WatcherFacts.

Section ConfigExamples.
Import Config Watcher.

Lemma processEnvVars_expands_witness :
  ∃ srv', MCPServers (@processEnvVars Examples.prodGo Examples.containerConfig)
            !! "db" = Some srv'
          ∧ Image srv' = "db:latest"
          ∧ is_Some (Volumes srv' !! "/srv")
          ∧ Network srv' = "${NET}".
Proof.
  destruct (@processEnvVars_expands Examples.prodGo Examples.containerConfig
              "db" Examples.containerEntry)
    as (srv' & Hsrv & _ & _ & _ & _ & _ & Himg & Hvol & _ & Hnet & _).
  - vm_compute. reflexivity.
  - exists srv'. split; [exact Hsrv|]. split; [exact Himg|].
    split; [|exact Hnet].
    apply (Hvol "${DATA}" "/data"). vm_compute. reflexivity.
Defined.

(** C9, as stated, fails on the network field: with [NET=prod] in the
    environment, a network written as a reference to [NET] is still
    that reference after loading. *)
Lemma processEnvVars_keeps_network :
  @ExpandEnv Examples.prodGo "${NET}" = "prod"
  ∧ Network <$> MCPServers
      (@processEnvVars Examples.prodGo Examples.containerConfig) !! "db"
    = Some "${NET}".
Proof. vm_compute. split; reflexivity. Qed.

Lemma handleConfigChange_commit_witness :
  let w := {| manager := tt; lastConfig := Examples.noServers; calls := [] |} in
  @handleConfigChange Examples.plainGo unit Examples.failing w
    (Decoded Examples.invalid) = w
  ∧ lastConfig (@handleConfigChange Examples.plainGo unit Examples.failing w
                  (Decoded Examples.oneServer))
    = Examples.oneServer.
Proof.
  split.
  - apply (proj1 (proj2 (@handleConfigChange_commit
                           Examples.plainGo unit Examples.failing _ _))
             Examples.invalid (ErrCommandRequired "a"));
      vm_compute; reflexivity.
  - apply (proj2 (proj2 (@handleConfigChange_commit
                           Examples.plainGo unit Examples.failing _ _))
             Examples.oneServer); vm_compute; reflexivity.
Defined.

End ConfigExamples.

(** ** The transports *)

Section SelectFacts.
Import Wire.
Context {A : Type}.

Lemma foldr_min_first (c : Z) (cs : list (Z * Fired A)) :
  (∀ x, x ∈ cs → c < x.1) →
  foldr (fun x acc => Z.min x.1 acc) c cs = c.
Proof.
  induction cs as [|x cs IH]; intros Hlt; simpl; [done|].
  rewrite IH by (intros y Hy; apply Hlt; by right).
  assert (c < x.1) by (apply Hlt; by left). lia.
Qed.

Lemma filter_later (c : Z) (cs : list (Z * Fired A)) :
  (∀ x, x ∈ cs → c < x.1) →
  filter (fun x : Z * Fired A => x.1 = c) cs = [].
Proof.
  induction cs as [|x cs IH]; intros Hlt; [done|].
  rewrite filter_cons_False.
  - apply IH. intros y Hy. apply Hlt. by right.
  - assert (c < x.1) by (apply Hlt; by left). lia.
Qed.

(** A case that is ready before all others is the one that fires. *)
Lemma select_first (c : Z * Fired A) (cs : list (Z * Fired A)) (pick : nat) :
  (∀ x, x ∈ cs → c.1 < x.1) → select (c :: cs) pick = Some c.
Proof.
  intros Hlt. unfold select. rewrite foldr_min_first by done.
  rewrite filter_cons_True by done. rewrite filter_later by done.
  cbn [length]. by rewrite Nat.mod_1_r.
Qed.

(** Two cases that are ready at the same instant: either may fire. *)
Lemma select_tie (at_ : Z) (f g : Fired A) (pick : nat) :
  select [(at_, f); (at_, g)] pick = Some (at_, f)
  ∨ select [(at_, f); (at_, g)] pick = Some (at_, g).
Proof.
  unfold select. cbn [foldr fst]. rewrite Z.min_id.
  rewrite !filter_cons_True by done. rewrite filter_nil. cbn [length].
  pose proof (Nat.mod_upper_bound pick 2 ltac:(lia)) as Hlt.
  destruct (pick `mod` 2)%nat as [|[|n]]; [by left|by right|lia].
Qed.

End SelectFacts.

Section TransportFacts.
Import Wire.

(** C3, as the code has it.  [SendRequest] on a line-oriented transport
    hands its caller the next line that the reader yields, whatever id
    that line carries, provided the line comes before the timer and
    before the context is done; exactly that line is taken from the
    reader and the lines behind it stay there for later requests. *)
Theorem SendRequest_returns_next_line :
  (∀ (t : Stdio.StdioTransport) ctx req pick d line rest,
     Stdio.connected t = true → Stdio.brokenPipe t = false →
     Stdio.reader t = (d, line) :: rest →
     0 ≤ d → d < Stdio.requestTimeout t ctx →
     (∀ x, doneAt ctx = Some x → d < x) →
     Stdio.SendRequest t ctx req pick
     = (Stdio.lineTaken (Stdio.written t req), d, Ok line)
     ∧ Stdio.reader (Stdio.lineTaken (Stdio.written t req)) = rest)
  ∧ (∀ (t : Docker.DockerTransport) ctx req pick d line rest,
     Docker.connected t = true → Docker.brokenPipe t = false →
     Docker.reader t = (d, line) :: rest →
     0 ≤ d → d < Docker.requestTimeout t ctx →
     (∀ x, doneAt ctx = Some x → d < x) →
     Docker.SendRequest t ctx req pick
     = (Docker.lineTaken (Docker.written t req), d, Ok line)
     ∧ Docker.reader (Docker.lineTaken (Docker.written t req)) = rest).
Proof.
  split; intros t ctx req pick d line rest Hc Hp Hr Hd Ht Hx.
  - unfold Stdio.SendRequest. rewrite Hc, Hp. cbn [negb].
    unfold Stdio.readCase. cbn [Stdio.written Stdio.reader]. rewrite Hr.
    cbn [app]. rewrite select_first.
    + rewrite Z.max_r by done. split; [done|].
      unfold Stdio.lineTaken. cbn. by rewrite Hr.
    + cbn [fst]. unfold after, whenDone.
      intros x [->%list_elem_of_singleton|Hin]%elem_of_app.
      * unfold Stdio.requestTimeout in *. cbn in *. lia.
      * destruct (doneAt ctx) as [y|] eqn:Hy; [|by apply elem_of_nil in Hin].
        apply list_elem_of_singleton in Hin as ->. specialize (Hx y eq_refl).
        cbn. lia.
  - unfold Docker.SendRequest. rewrite Hc, Hp. cbn [negb].
    unfold Docker.readCase. cbn [Docker.written Docker.reader]. rewrite Hr.
    cbn [app]. rewrite select_first.
    + rewrite Z.max_r by done. split; [done|].
      unfold Docker.lineTaken. cbn. by rewrite Hr.
    + cbn [fst]. unfold after, whenDone.
      intros x [->%list_elem_of_singleton|Hin]%elem_of_app.
      * unfold Docker.requestTimeout in *. cbn in *. lia.
      * destruct (doneAt ctx) as [y|] eqn:Hy; [|by apply elem_of_nil in Hin].
        apply list_elem_of_singleton in Hin as ->. specialize (Hx y eq_refl).
        cbn. lia.
Qed.

Lemma SendRequest_returns_next_line_witness :
  Stdio.SendRequest
    (Examples.stdioChild [Examples.progress; Examples.reply 1 "hi"])
    Background (Examples.callEcho 1) 0
  = (Stdio.lineTaken
       (Stdio.written
          (Examples.stdioChild [Examples.progress; Examples.reply 1 "hi"])
          (Examples.callEcho 1)),
     0, Ok Examples.progress).
Proof.
  apply (proj1 SendRequest_returns_next_line
           (Examples.stdioChild [Examples.progress; Examples.reply 1 "hi"])
           Background (Examples.callEcho 1) 0%nat 0 Examples.progress
           [(0, Examples.reply 1 "hi")]).
  - reflexivity.
  - reflexivity.
  - reflexivity.
  - lia.
  - vm_compute. reflexivity.
  - intros x. vm_compute. discriminate.
Defined.

(** C3, as stated, fails: a notification that the child prints before
    its reply is handed to the caller of request 1 as the response, on
    both line-oriented transports; and a second line with the id of a
    request already answered is not discarded, the next request gets
    it. *)
Lemma SendRequest_does_not_route_by_id :
  (Stdio.SendRequest
     (Examples.stdioChild [Examples.progress; Examples.reply 1 "hi"])
     Background (Examples.callEcho 1) 0).2 = Ok Examples.progress
  ∧ (Docker.SendRequest
       (Examples.dockerChild [Examples.progress; Examples.reply 1 "hi"])
       Background (Examples.callEcho 1) 0).2 = Ok Examples.progress
  ∧ envID Examples.progress ≠ envID (Examples.callEcho 1)
  ∧ (Stdio.SendRequest
       (Stdio.SendRequest
          (Examples.stdioChild
             [Examples.reply 1 "hi"; Examples.reply 1 "again"])
          Background (Examples.callEcho 1) 0).1.1
       Background (Examples.callEcho 2) 0).2
    = Ok (Examples.reply 1 "again").
Proof. vm_compute. repeat split; (reflexivity || discriminate). Qed.

(** C4, as the code has it.  On the stdio and container transports the
    wait for the response is bounded by the time left until the
    caller's deadline when the context has one, and by the transport's
    timeout only when it has none: with a silent peer and no
    cancellation the request ends exactly then, with a timeout error or
    the context's error. *)
Theorem SendRequest_waits_for_deadline_else_default :
  (∀ (t : Stdio.StdioTransport) ctx req pick,
     Stdio.connected t = true → Stdio.brokenPipe t = false →
     Stdio.reader t = [] → Stdio.eof t = None → cancelAt ctx = None →
     match deadline ctx with
     | Some d =>
         (Stdio.SendRequest t ctx req pick).1.2 = Z.max 0 d
         ∧ ((Stdio.SendRequest t ctx req pick).2 = Err (ErrTimeout d)
            ∨ (Stdio.SendRequest t ctx req pick).2 = Err ErrContext)
     | None =>
         (Stdio.SendRequest t ctx req pick).1.2 = Z.max 0 (Stdio.timeout t)
         ∧ (Stdio.SendRequest t ctx req pick).2
           = Err (ErrTimeout (Stdio.timeout t))
     end)
  ∧ (∀ (t : Docker.DockerTransport) ctx req pick,
     Docker.connected t = true → Docker.brokenPipe t = false →
     Docker.reader t = [] → Docker.eof t = None → cancelAt ctx = None →
     match deadline ctx with
     | Some d =>
         (Docker.SendRequest t ctx req pick).1.2 = Z.max 0 d
         ∧ ((Docker.SendRequest t ctx req pick).2 = Err (ErrTimeout d)
            ∨ (Docker.SendRequest t ctx req pick).2 = Err ErrContext)
     | None =>
         (Docker.SendRequest t ctx req pick).1.2 = Z.max 0 (Docker.timeout t)
         ∧ (Docker.SendRequest t ctx req pick).2
           = Err (ErrTimeout (Docker.timeout t))
     end).
Proof.
  split; intros t ctx req pick Hc Hp Hr He Hx.
  - unfold Stdio.SendRequest. rewrite Hc, Hp. cbn [negb].
    unfold Stdio.readCase, Stdio.requestTimeout, whenDone, doneAt, after.
    cbn [Stdio.written Stdio.reader Stdio.eof Stdio.timeout].
    rewrite Hr, He, Hx. cbn [app].
    destruct (deadline ctx) as [d|].
    + cbn [app].
      destruct (select_tie (Z.max 0 d) (@TimedOut Envelope) CtxDone pick)
        as [-> | ->]; cbn; auto.
    + rewrite select_first by (by intros x ?%elem_of_nil). by cbn.
  - unfold Docker.SendRequest. rewrite Hc, Hp. cbn [negb].
    unfold Docker.readCase, Docker.requestTimeout, whenDone, doneAt, after.
    cbn [Docker.written Docker.reader Docker.eof Docker.timeout].
    rewrite Hr, He, Hx. cbn [app].
    destruct (deadline ctx) as [d|].
    + cbn [app].
      destruct (select_tie (Z.max 0 d) (@TimedOut Envelope) CtxDone pick)
        as [-> | ->]; cbn; auto.
    + rewrite select_first by (by intros x ?%elem_of_nil). by cbn.
Qed.

Lemma SendRequest_waits_for_deadline_else_default_witness :
  (Stdio.SendRequest (Examples.stdioChild []) (WithTimeout (5 * second))
     (Examples.callEcho 1) 0).1.2 = 5 * second.
Proof.
  apply (proj1 SendRequest_waits_for_deadline_else_default
           (Examples.stdioChild []) (WithTimeout (5 * second))
           (Examples.callEcho 1) 0%nat); reflexivity.
Defined.

(** C4, as stated, fails: with the default timeout of 30 s and a caller
    whose deadline is 60 s away, the timeout applied is 60 s, not the
    smaller of the two, and a request to a silent child ends after
    60 s. *)
Lemma SendRequest_deadline_overrides_default :
  Stdio.timeout (Examples.stdioChild []) = 30 * second
  ∧ Stdio.requestTimeout (Examples.stdioChild []) (WithTimeout (60 * second))
    = 60 * second
  ∧ Stdio.requestTimeout (Examples.stdioChild []) (WithTimeout (60 * second))
    ≠ Z.min (Stdio.timeout (Examples.stdioChild [])) (60 * second)
  ∧ Stdio.SendRequest (Examples.stdioChild []) (WithTimeout (60 * second))
      (Examples.callEcho 1) 0
    = (Stdio.written (Examples.stdioChild []) (Examples.callEcho 1),
       60 * second, Err (ErrTimeout (60 * second)))
  ∧ Docker.requestTimeout (Examples.dockerChild [])
      (WithTimeout (60 * second))
    ≠ Z.min (Docker.timeout (Examples.dockerChild [])) (60 * second).
Proof. vm_compute. repeat split; (reflexivity || discriminate). Qed.

(** C5, on the code.  An envelope whose id is a string makes
    [handleSSEMessage] panic, whatever the pending table holds. *)
Theorem handleSSEMessage_string_id_panics (t : SSE.SSETransport)
    (id method result : string) :
  SSE.handleSSEMessage t
    (Some {| envID := IDString id; envMethod := method;
             envResult := result |})
  = Panics.
Proof. reflexivity. Qed.

(** Envelopes without id and envelopes with a numeric id are handled as
    the design says: routed into the pending slot, or dropped. *)
Lemma handleSSEMessage_number_or_absent (t : SSE.SSETransport)
    (msg : Envelope) :
  (envID msg = IDNil → SSE.handleSSEMessage t (Some msg) = Returns t)
  ∧ (∀ n, envID msg = IDNumber n →
       SSE.handleSSEMessage t (Some msg)
       = Returns (match SSE.responses t !! n with
                  | Some ch =>
                      SSE.setResponses t
                        (<[n := SSE.trySend (envResult msg) ch]>
                           (SSE.responses t))
                  | None => t
                  end)).
Proof.
  unfold SSE.handleSSEMessage. split.
  - by intros ->.
  - intros n ->. cbn. by destruct (SSE.responses t !! n).
Qed.

(** The same assertion guards the request path: a connected transport
    panics on every message without a numeric id, so on every
    notification that [SendNotification] passes to [SendRequest]. *)
Lemma SendNotification_panics (t : SSE.SSETransport) ctx
    (notification : Envelope) post during pick :
  SSE.connected t = true → envID notification = IDNil →
  SSE.SendNotification t ctx notification post during pick = Panics.
Proof.
  intros Hc Hid. unfold SSE.SendNotification, SSE.SendRequest.
  by rewrite Hc, Hid.
Qed.

End TransportFacts.

(** * Further properties of the code *)

#[local] Set Warnings "-clear-no-such-hyp".

(** ** The registry: composition of its operations *)

Section RegistryMore.
Import Registry.

Lemma lookup_UnregisterTools r p id t :
  tools (UnregisterTools r p) !! id = Some t
  ↔ tools r !! id = Some t ∧ PluginID t ≠ p.
Proof.
  unfold UnregisterTools. rewrite tools_broadcastLocked. cbn [tools].
  by rewrite map_lookup_filter_Some.
Qed.

Lemma lookup_UnregisterTools_None r p id :
  tools (UnregisterTools r p) !! id = None
  ↔ ∀ t, tools r !! id = Some t → PluginID t = p.
Proof.
  unfold UnregisterTools. rewrite tools_broadcastLocked. cbn [tools].
  rewrite map_lookup_filter_None. split.
  - intros [Hn|Hall] t Ht; [congruence|].
    destruct (decide (PluginID t = p)) as [|Hne]; [done|].
    by destruct (Hall t Ht).
  - intros Hall. destruct (tools r !! id) as [t|] eqn:Ht; [|by left].
    right. intros t' [= <-] Hne. cbn in Hne. by apply Hne, Hall.
Qed.

Lemma lastWithID_None id ts :
  id ∉ ID <$> ts → lastWithID id ts = None.
Proof.
  intros Hid. destruct (lastWithID id ts) as [t|] eqn:E; [|done].
  apply lastWithID_Some in E as [Hin <-].
  exfalso. apply Hid, list_elem_of_fmap. eauto.
Qed.

(** X1.  Registering a list of tools under an owner and then
    unregistering that owner removes every id of the list from the
    registry, also an id that another owner held before; the ids that
    the list does not mention are as after unregistering the owner
    alone. *)
Theorem RegisterTools_then_UnregisterTools (r : Registry) (o : string)
    (ts : list Tool) (id : string) :
  tools (UnregisterTools (RegisterTools r o ts) o) !! id
  = if decide (id ∈ ID <$> ts) then None
    else tools (UnregisterTools r o) !! id.
Proof.
  case_decide as Hid.
  - apply lookup_UnregisterTools_None. intros t.
    unfold RegisterTools. rewrite tools_broadcastLocked. cbn [tools].
    rewrite lookup_storeTools.
    apply list_elem_of_fmap in Hid as (t0 & -> & Hin).
    destruct (lastWithID_is_Some (ID t0) ts t0 Hin eq_refl) as [t1 ->].
    by intros [= <-].
  - unfold UnregisterTools, RegisterTools.
    rewrite !tools_broadcastLocked. cbn [tools].
    apply option_eq. intros t. rewrite !map_lookup_filter_Some.
    by rewrite lookup_storeTools, lastWithID_None.
Qed.

Lemma keyed_applyOp r o :
  (∀ id t, tools r !! id = Some t → ID t = id) →
  ∀ id t, tools (applyOp r o) !! id = Some t → ID t = id.
Proof.
  intros Hk id t. destruct o as [p ts|p]; unfold applyOp.
  - unfold RegisterTools. rewrite tools_broadcastLocked. cbn [tools].
    rewrite lookup_storeTools.
    destruct (lastWithID id ts) as [t0|] eqn:E; [|apply Hk].
    apply lastWithID_Some in E as [_ <-]. by intros [= <-].
  - rewrite lookup_UnregisterTools. intros [Ht _]. by apply Hk.
Qed.

Lemma keyed_applyOps os : ∀ r,
  (∀ id t, tools r !! id = Some t → ID t = id) →
  ∀ id t, tools (applyOps r os) !! id = Some t → ID t = id.
Proof.
  induction os as [|o os IH]; intros r Hk; [done|].
  simpl. apply IH. by apply keyed_applyOp.
Qed.

Lemma keyed_ids (m : gmap string Tool) :
  (∀ id t, m !! id = Some t → ID t = id) →
  ID <$> (map_to_list m).*2 = (map_to_list m).*1.
Proof.
  intros Hk.
  assert (∀ l : list (string * Tool),
            (∀ kv, kv ∈ l → ID kv.2 = kv.1) → ID <$> l.*2 = l.*1) as Hl.
  { induction l as [|kv l IH]; intros Hall; [done|]. cbn.
    rewrite (Hall kv) by (by left).
    f_equal. apply IH. intros kv' Hin. apply Hall. by right. }
  apply Hl. intros [k v] Hin%elem_of_map_to_list. by apply Hk.
Qed.

(** X2.  In a registry that was built from [New] by registrations and
    unregistrations, every tool sits under its own id, the listing
    shows no id twice, and a tool is listed exactly when it is stored
    under its id. *)
Theorem List_ids_unique (os : list Op) :
  let r := applyOps New os in
  (∀ id t, tools r !! id = Some t → ID t = id)
  ∧ NoDup (ID <$> List r)
  ∧ (∀ t, t ∈ List r ↔ tools r !! ID t = Some t).
Proof.
  assert (∀ id t, tools (applyOps New os) !! id = Some t → ID t = id) as Hk.
  { apply keyed_applyOps. intros id t. cbn. by rewrite lookup_empty. }
  cbn zeta. split; [exact Hk|]. split.
  - unfold List. rewrite keyed_ids by done. apply NoDup_fst_map_to_list.
  - intros t. unfold List. rewrite list_elem_of_fmap. split.
    + intros ([k v] & -> & Hin%elem_of_map_to_list). cbn.
      by rewrite (Hk k v Hin).
    + intros Ht. exists (ID t, t). split; [done|].
      by apply elem_of_map_to_list.
Qed.

(** X3.  [Subscribe] makes a channel that no earlier subscriber has,
    puts the current listing into it before it returns, and leaves the
    tools and the other channels as they are. *)
Theorem Subscribe_initial_snapshot (r : Registry) :
  chans r !! ((Subscribe r).2) = None
  ∧ ((Subscribe r).2) ∈ subs ((Subscribe r).1)
  ∧ queued ((Subscribe r).1) ((Subscribe r).2) = Some (List r)
  ∧ tools ((Subscribe r).1) = tools r
  ∧ ∀ ch, ch ≠ (Subscribe r).2 →
      chans ((Subscribe r).1) !! ch = chans r !! ch.
Proof.
  cbn [Subscribe fst snd]. split; [|split; [|split; [|split]]].
  - apply not_elem_of_dom. unfold freshChan. apply is_fresh.
  - cbn [subs]. apply elem_of_union_l. by apply elem_of_singleton_2.
  - unfold queued. cbn [chans]. by rewrite lookup_insert_eq.
  - done.
  - intros ch Hne. cbn [chans]. by rewrite lookup_insert_ne.
Qed.

Lemma chans_applyOp_unsubscribed r o ch :
  ch ∉ subs r → chans (applyOp r o) !! ch = chans r !! ch.
Proof.
  intros Hn. destruct o as [p ts|p]; unfold applyOp;
    unfold RegisterTools, UnregisterTools;
    rewrite chans_broadcastLocked; cbn [subs chans];
    by rewrite decide_False.
Qed.

Lemma chans_applyOps_unsubscribed os : ∀ r ch,
  ch ∉ subs r → chans (applyOps r os) !! ch = chans r !! ch.
Proof.
  induction os as [|o os IH]; intros r ch Hn; [done|].
  simpl. rewrite IH by (by rewrite subs_applyOp).
  by apply chans_applyOp_unsubscribed.
Qed.

(** X4.  After [Unsubscribe] the channel is closed and out of the
    subscriber set: the snapshot it still holds can be read, no later
    mutation puts anything into it, and a second [Unsubscribe] of the
    same channel panics on the closed channel. *)
Theorem Unsubscribe_stops_delivery (r r' : Registry) (ch : nat) :
  Unsubscribe r ch = Some r' →
  (ch ∉ subs r')
  ∧ queued r' ch = queued r ch
  ∧ (∀ os, chans (applyOps r' os) !! ch = chans r' !! ch)
  ∧ (∀ os, Unsubscribe (applyOps r' os) ch = None).
Proof.
  unfold Unsubscribe. destruct (chans r !! ch) as [c|] eqn:Hc; [|done].
  destruct (closed c) eqn:Hcl; [done|]. intros [= <-].
  assert (ch ∉ subs r ∖ {[ch]}) as Hn.
  { intros [_ Hx]%elem_of_difference. by apply Hx, elem_of_singleton_2. }
  split; [exact Hn|]. split; [|split].
  - unfold queued. cbn [chans]. by rewrite lookup_insert_eq, Hc.
  - intros os. by apply chans_applyOps_unsubscribed.
  - intros os. rewrite chans_applyOps_unsubscribed by exact Hn.
    cbn [chans]. by rewrite lookup_insert_eq.
Qed.

(** X5.  Once a subscriber has taken the snapshot out of its channel,
    the next mutation of the registry puts the listing of the new state
    there. *)
Theorem recv_then_mutation (r r' : Registry) (ch : nat) (s : list Tool)
    (o : Op) :
  ch ∈ subs r → recv r ch = Some (s, r') →
  queued r ch = Some s
  ∧ queued (applyOp r' o) ch = Some (List (applyOp r' o)).
Proof.
  intros Hin. unfold recv.
  destruct (chans r !! ch) as [c|] eqn:Hc; [|done].
  destruct (buf c) as [s'|] eqn:Hb; [|done]. intros [= <- <-].
  split.
  - unfold queued. rewrite Hc. cbn. exact Hb.
  - rewrite (queued_applyOp _ o ch {| buf := None; closed := closed c |});
      [done|exact Hin|].
    cbn [chans]. apply lookup_insert_eq.
Qed.

Lemma Unsubscribe_stops_delivery_witness :
  chans (applyOps Examples.unsubscribed [OpRegister "a" [Examples.echo]])
    !! Examples.subscriber
  = chans Examples.unsubscribed !! Examples.subscriber.
Proof.
  destruct (Unsubscribe_stops_delivery Examples.subscribed
              Examples.unsubscribed Examples.subscriber)
    as (_ & _ & Hkeep & _).
  - vm_compute. reflexivity.
  - apply Hkeep.
Defined.

Lemma recv_then_mutation_witness :
  queued (applyOp Examples.drained (OpRegister "a" [Examples.echo]))
         Examples.subscriber
  = Some (List (applyOp Examples.drained (OpRegister "a" [Examples.echo]))).
Proof.
  apply (recv_then_mutation Examples.subscribed Examples.drained
           Examples.subscriber [] (OpRegister "a" [Examples.echo])).
  - apply (bool_decide_unpack (Examples.subscriber ∈ subs Examples.subscribed)).
    vm_compute. exact I.
  - vm_compute. reflexivity.
Defined.

End RegistryMore.

(** ** The configuration: validation and what it guarantees *)

Section ConfigMore.
Context `{GoLib}.
Import Config.

Lemma firstError_None l :
  firstError l = None ↔ ∀ kv, kv ∈ l → validateServer kv.1 kv.2 = None.
Proof.
  induction l as [|[name srv] l IH]; simpl.
  - split; [|done]. by intros _ kv ?%elem_of_nil.
  - destruct (validateServer name srv) as [e|] eqn:E.
    + split; [done|]. intros Hall.
      specialize (Hall (name, srv) ltac:(by left)). cbn in Hall. congruence.
    + rewrite IH. split.
      * intros Hall kv [->|Hin]%elem_of_cons; [done|by apply Hall].
      * intros Hall kv Hin. apply Hall. by right.
Qed.

Lemma firstError_Some l e :
  firstError l = Some e → ∃ kv, kv ∈ l ∧ validateServer kv.1 kv.2 = Some e.
Proof.
  induction l as [|[name srv] l IH]; simpl; [done|].
  destruct (validateServer name srv) as [e'|] eqn:E.
  - intros [= ->]. exists (name, srv). split; [by left|done].
  - intros (kv & Hin & Hkv)%IH. exists kv. split; [by right|done].
Qed.

(** What the [switch] of [Validate] accepts for an enabled entry. *)
Lemma validateServer_None name srv :
  Disabled srv = false →
  validateServer name srv = None
  ↔ (TransportType srv = "stdio" ∧ Command srv ≠ "")
    ∨ (TransportType srv = "sse" ∧ URL srv ≠ "")
    ∨ (TransportType srv = "http" ∧ URL srv ≠ "")
    ∨ (TransportType srv = "docker" ∧ Image srv ≠ "").
Proof.
  intros Hd. unfold validateServer. rewrite Hd.
  generalize (TransportType srv). intros ty.
  repeat case_decide; subst; (split; [intros Hok|intros Hok]);
    try done;
    try (destruct Hok as [[? ?]|[[? ?]|[[? ?]|[? ?]]]]; congruence);
    first [ by left | by right; left | by right; right; left
          | by right; right; right ].
Qed.

Lemma Validate_None (c : Config) :
  Validate c = None
  ↔ ∀ name srv, MCPServers c !! name = Some srv → Disabled srv = false →
      (TransportType srv = "stdio" ∧ Command srv ≠ "")
      ∨ (TransportType srv = "sse" ∧ URL srv ≠ "")
      ∨ (TransportType srv = "http" ∧ URL srv ≠ "")
      ∨ (TransportType srv = "docker" ∧ Image srv ≠ "").
Proof.
  unfold Validate. rewrite firstError_None. split.
  - intros Hall name srv Hsrv Hd.
    apply (proj1 (validateServer_None name srv Hd)).
    apply (Hall (name, srv)). by rewrite elem_of_map_to_list.
  - intros Hall [name srv] Hin%elem_of_map_to_list. cbn.
    destruct (Disabled srv) eqn:Hd.
    + unfold validateServer. by rewrite Hd.
    + apply (proj2 (validateServer_None name srv Hd)).
      by apply (Hall name srv).
Qed.

(** X6.  [Validate] accepts a config exactly when every entry that is
    not disabled has the field its transport type needs: a command for
    stdio, a URL for sse and http, an image for docker; a disabled entry
    is never looked at, and an error always comes from an enabled
    entry. *)
Theorem Validate_accepts_iff (c : Config) :
  (Validate c = None
   ↔ ∀ name srv, MCPServers c !! name = Some srv → Disabled srv = false →
       (TransportType srv = "stdio" ∧ Command srv ≠ "")
       ∨ (TransportType srv = "sse" ∧ URL srv ≠ "")
       ∨ (TransportType srv = "http" ∧ URL srv ≠ "")
       ∨ (TransportType srv = "docker" ∧ Image srv ≠ ""))
  ∧ (∀ e, Validate c = Some e →
       ∃ name srv, MCPServers c !! name = Some srv ∧ Disabled srv = false).
Proof.
  split; [apply Validate_None|]. unfold Validate.
  - intros e ([name srv] & Hin%elem_of_map_to_list & He)%firstError_Some.
    exists name, srv. split; [done|]. cbn in He.
    unfold validateServer in He. by destruct (Disabled srv).
Qed.

(** X7.  Expanding the variables neither adds nor removes a server and
    does not change which servers are enabled. *)
Theorem processEnvVars_keeps_servers (c : Config) :
  dom (MCPServers (processEnvVars c)) = dom (MCPServers c)
  ∧ dom (GetEnabledServers (processEnvVars c)) = dom (GetEnabledServers c).
Proof.
  split.
  - unfold processEnvVars. cbn. apply dom_fmap_L.
  - apply set_eq. intros name. rewrite !elem_of_dom.
    unfold GetEnabledServers, processEnvVars. cbn. split.
    + intros [srv' (Hs & Hd)%map_lookup_filter_Some].
      rewrite lookup_fmap in Hs.
      destruct (MCPServers c !! name) as [srv|] eqn:E; [|done].
      injection Hs as <-. exists srv. by apply map_lookup_filter_Some.
    + intros [srv (Hs & Hd)%map_lookup_filter_Some].
      exists (expandServer srv). apply map_lookup_filter_Some.
      by rewrite lookup_fmap, Hs.
Qed.

End ConfigMore.

(** ** The plugin manager: failure, restart and shutdown *)

Section PluginMore.
Context `{GoLib} `{Plugin.Peers}.
Import Plugin.

(** X8.  Every enabled entry of a config that [Validate] accepts gets a
    transport in [StartServer]: the "unsupported transport type" branch
    is never taken for it. *)
Theorem validated_entry_has_transport (c : Config.Config) (server : string)
    (srv : Config.ServerConfig) (m : Manager) :
  Config.Validate c = None →
  Config.GetEnabledServers c !! server = Some srv →
  is_Some (makeTransport srv)
  ∧ ∀ t, (StartServer m server srv).2 ≠ Some (ErrUnsupportedTransport t).
Proof.
  intros Hv (Hs & Hd)%map_lookup_filter_Some. cbn in Hd.
  pose proof (proj1 (Validate_None c) Hv server srv Hs Hd) as Hty.
  clear Hv. rename Hty into Hv.
  assert (is_Some (makeTransport srv)) as [tr Htr].
  { unfold makeTransport.
    destruct Hv as [[-> _]|[[-> _]|[[-> _]|[-> _]]]];
      repeat case_decide; eauto; done. }
  split; [eauto|]. intros t. unfold StartServer. rewrite Htr.
  destruct (servers m !! server); [done|].
  destruct (Connect tr) as [sess|]; [|done].
  by destruct (sessListTools sess).
Qed.

(** X9.  A [StartServer] that returns an error leaves the session map
    and the registry as they were; when the name is already running it
    does nothing at all, and when tool discovery fails its last act is
    to close the session it had opened. *)
Theorem StartServer_failure_changes_nothing (m m' : Manager)
    (server : string) (cfg : Config.ServerConfig) (e : Error) :
  StartServer m server cfg = (m', Some e) →
  servers m' = servers m
  ∧ reg m' = reg m
  ∧ (is_Some (servers m !! server) → e = ErrAlreadyStarted server ∧ m' = m)
  ∧ (e = ErrListTools → ∃ before, log m' = (before ++ [EvClose server])%list).
Proof.
  unfold StartServer.
  destruct (servers m !! server) as [s|].
  { intros [= <- <-]. split_and!; [done|done|done|done]. }
  destruct (makeTransport cfg) as [tr|].
  2:{ intros [= <- <-]. split_and!; [done|done|by intros [? ?]|done]. }
  destruct (Connect tr) as [sess|].
  2:{ intros [= <- <-]. split_and!; [done|done|by intros [? ?]|done]. }
  destruct (sessListTools sess) as [ts|]; [done|].
  intros [= <- <-]. split_and!; [done|done|by intros [? ?]|].
  intros _. cbn. eauto.
Qed.

Lemma StartServer_failure m m' server cfg e :
  StartServer m server cfg = (m', Some e) →
  servers m' = servers m ∧ reg m' = reg m.
Proof.
  unfold StartServer.
  destruct (servers m !! server) as [s|]; [by intros [= <- <-]|].
  destruct (makeTransport cfg) as [tr|]; [|by intros [= <- <-]].
  destruct (Connect tr) as [sess|]; [|by intros [= <- <-]].
  destruct (sessListTools sess) as [ts|]; [done|].
  by intros [= <- <-].
Qed.

Lemma StartServer_success m m' server cfg :
  StartServer m server cfg = (m', None) →
  servers m !! server = None
  ∧ ∃ sess ts,
      servers m' = <[server := {| name := server; session := sess |}]>
                     (servers m)
      ∧ reg m' = Registry.RegisterTools (reg m) server ts.
Proof.
  unfold StartServer.
  destruct (servers m !! server) as [s|]; [done|].
  destruct (makeTransport cfg) as [tr|]; [|done].
  destruct (Connect tr) as [sess|]; [|done].
  destruct (sessListTools sess) as [ts|]; [|done].
  intros [= <-]. split; [done|]. by eexists _, _.
Qed.

Lemma StopServer_running m server srv :
  servers m !! server = Some srv →
  servers (StopServer m server).1 = delete server (servers m)
  ∧ reg (StopServer m server).1 = Registry.UnregisterTools (reg m) server.
Proof.
  intros Hs. unfold StopServer. rewrite Hs. unfold sessionClose.
  by destruct (sessCloseFails (session srv)).
Qed.

(** X10.  Starting a server and stopping it again gives back the
    session map from before the start, whether or not closing the
    session reports an error, and leaves no tool owned by that server
    in the registry. *)
Theorem StartServer_then_StopServer (m m1 : Manager) (server : string)
    (cfg : Config.ServerConfig) :
  StartServer m server cfg = (m1, None) →
  servers (StopServer m1 server).1 = servers m
  ∧ ∀ id t, Registry.tools (reg (StopServer m1 server).1) !! id = Some t →
      Registry.PluginID t ≠ server.
Proof.
  intros (Hnone & sess & ts & Hs & Hr)%StartServer_success.
  destruct (StopServer_running m1 server {| name := server; session := sess |})
    as [Hs' Hr'].
  { rewrite Hs. apply lookup_insert_eq. }
  rewrite Hs', Hr', Hs. split.
  - rewrite delete_insert_eq. by apply delete_id.
  - intros id t Ht. by apply lookup_UnregisterTools in Ht as [_ ?].
Qed.

(** X11.  [ReloadServer] does not roll back: whenever it returns an
    error, be it from stopping the old session or from starting the new
    one, no session runs under that name afterwards; when it returns
    without error, one does. *)
Theorem ReloadServer_error_leaves_stopped (m m' : Manager) (server : string)
    (cfg : Config.ServerConfig) :
  (∀ e, ReloadServer m server cfg = (m', Some e) →
     servers m' !! server = None)
  ∧ (ReloadServer m server cfg = (m', None) →
     is_Some (servers m' !! server)).
Proof.
  unfold ReloadServer, GetServer.
  assert (∀ m0 m1 e, servers m0 !! server = None →
            StartServer m0 server cfg = (m1, Some e) →
            servers m1 !! server = None) as Hfail.
  { intros m0 m1 e Hn (-> & _)%StartServer_failure. done. }
  assert (∀ m0 m1, StartServer m0 server cfg = (m1, None) →
            is_Some (servers m1 !! server)) as Hok.
  { intros m0 m1 (_ & sess & ts & -> & _)%StartServer_success.
    rewrite lookup_insert_eq. eauto. }
  destruct (servers m !! server) as [srv|] eqn:Hs.
  - destruct (StopServer_running m server srv Hs) as [Hd _].
    destruct (StopServer m server) as [m0 [e0|]] eqn:Hstop; cbn in Hd.
    + split; [|done]. intros e [= <- _]. rewrite Hd. apply lookup_delete_eq.
    + split; [|by apply Hok]. intros e. apply Hfail.
      rewrite Hd. apply lookup_delete_eq.
  - split; [|by apply Hok]. intros e. by apply Hfail.
Qed.

(** X12.  [StopAll] only closes sessions: the session map and the
    registry, with the tools of the closed servers, stay as they are,
    and every session in the map is closed once. *)
Theorem StopAll_only_closes (m : Manager) :
  servers (StopAll m) = servers m
  ∧ reg (StopAll m) = reg m
  ∧ log (StopAll m)
    = (log m ++ ((fun kv => EvClose (name kv.2))
                   <$> map_to_list (servers m)))%list.
Proof.
  unfold StopAll. generalize (map_to_list (servers m)). intros l.
  revert m. induction l as [|kv l IH]; intros m; cbn [foldl fmap list_fmap].
  - by rewrite app_nil_r.
  - destruct (IH (sessionClose m (name kv.2) (session kv.2)).1)
      as (Hs & Hr & Hl).
    rewrite Hs, Hr, Hl. cbn. by rewrite <- app_assoc.
Qed.


Lemma StartServer_other m server cfg k :
  k ≠ server → servers (StartServer m server cfg).1 !! k = servers m !! k.
Proof.
  intros Hne. destruct (StartServer m server cfg) as [m' [e|]] eqn:E; cbn.
  - by apply StartServer_failure in E as (-> & _).
  - apply StartServer_success in E as (_ & sess & ts & -> & _).
    by rewrite lookup_insert_ne.
Qed.

Lemma StartServer_running m server cfg srv :
  servers m !! server = Some srv →
  servers (StartServer m server cfg).1 = servers m.
Proof.
  intros Hs. unfold StartServer. by rewrite Hs.
Qed.

(** X13.  [LoadFromConfig] refuses an invalid config without touching
    the manager.  Otherwise it starts enabled entries only: a name that
    is not running and is not an enabled entry of the config is not
    running afterwards, and a session that was running is still the
    same. *)
Theorem LoadFromConfig_starts_enabled_only (m : Manager)
    (cfg : Config.Config) :
  (∀ e, Config.Validate cfg = Some e →
     LoadFromConfig m cfg = (m, Some (ErrInvalidConfiguration e)))
  ∧ (∀ k, servers m !! k = None →
       Config.GetEnabledServers cfg !! k = None →
       servers (LoadFromConfig m cfg).1 !! k = None)
  ∧ (∀ k srv, servers m !! k = Some srv →
       servers (LoadFromConfig m cfg).1 !! k = Some srv).
Proof.
  unfold LoadFromConfig. split; [by intros e ->|].
  destruct (Config.Validate cfg); [split; [done|]; by intros k srv|].
  cbn [fst].
  assert (∀ (l : list (string * Config.ServerConfig)) m0 k,
            (∀ kv, kv ∈ l → kv.1 ≠ k) →
            servers (foldl (fun m kv => (StartServer m kv.1 kv.2).1) m0 l) !! k
            = servers m0 !! k) as Hother.
  { induction l as [|kv l IH]; intros m0 k Hl; [done|]. cbn [foldl].
    rewrite IH by (intros kv' Hin; apply Hl; by right).
    apply StartServer_other. symmetry. apply Hl. by left. }
  assert (∀ (l : list (string * Config.ServerConfig)) m0 k srv,
            servers m0 !! k = Some srv →
            servers (foldl (fun m kv => (StartServer m kv.1 kv.2).1) m0 l) !! k
            = Some srv) as Hkeep.
  { induction l as [|kv l IH]; intros m0 k srv Hk; [done|]. cbn [foldl].
    apply IH. destruct (decide (k = kv.1)) as [->|Hne].
    - by erewrite StartServer_running.
    - by rewrite StartServer_other. }
  split.
  - intros k Hk Hcfg. rewrite Hother; [done|].
    intros [k' v] Hin%elem_of_map_to_list Heq. cbn in Heq. subst k'.
    congruence.
  - intros k srv Hk. by apply Hkeep.
Qed.

End PluginMore.

(** ** The watcher: which calls a reconciliation makes *)

Section WatcherMore.
Context `{GoLib} {M : Type} `{Watcher.PluginManager M}.
Import Watcher.

(** The calls of the first loop, read off the old servers. *)
Lemma calls_removeStep new (l : list (string * Config.ServerConfig)) :
  ∀ w : Watcher M,
    calls (foldl (removeStep new) w l)
    = (calls w
       ++ (CallStop <$> filter (fun k => new !! k = None) l.*1))%list
    ∧ lastConfig (foldl (removeStep new) w l) = lastConfig w.
Proof.
  induction l as [|[k v] l IH]; intros w; cbn [foldl fmap list_fmap fst].
  - by rewrite filter_nil, app_nil_r.
  - destruct (IH (removeStep new w (k, v))) as [-> ->].
    unfold removeStep. cbn [fst].
    destruct (new !! k) eqn:E.
    + by rewrite filter_cons_False by (by rewrite E).
    + rewrite filter_cons_True by done. cbn. by rewrite <- app_assoc.
Qed.

(** The call, if any, that the second loop makes for an entry. *)
Lemma calls_addOrUpdateStep old (l : list (string * Config.ServerConfig)) :
  ∀ w : Watcher M,
    calls (foldl (addOrUpdateStep old) w l)
    = (calls w
       ++ ((fun kv : string * Config.ServerConfig =>
              match old !! kv.1 with
              | None => CallStart kv.1 kv.2
              | Some _ => CallReload kv.1 kv.2
              end)
             <$> filter (fun kv => needsCall old kv = true) l))%list.
Proof.
  induction l as [|[k v] l IH]; intros w; cbn [foldl].
  - by rewrite filter_nil, app_nil_r.
  - rewrite IH. unfold addOrUpdateStep. cbn [fst snd].
    destruct (old !! k) as [o|] eqn:E.
    + destruct (configEqual o v) eqn:Eq.
      * rewrite filter_cons_False; [done|].
        unfold needsCall. cbn. by rewrite E, Eq.
      * rewrite filter_cons_True by (unfold needsCall; cbn; by rewrite E, Eq).
        cbn. rewrite E. by rewrite <- app_assoc.
    + rewrite filter_cons_True by (unfold needsCall; cbn; by rewrite E).
      cbn. rewrite E. by rewrite <- app_assoc.
Qed.

Lemma calls_applyConfigChanges (w : Watcher M) (newConfig : Config.Config) :
  calls (applyConfigChanges w newConfig)
  = (calls w
     ++ (CallStop
           <$> filter (fun k => Config.GetEnabledServers newConfig !! k = None)
                 (map_to_list (Config.GetEnabledServers (lastConfig w))).*1)
     ++ ((fun kv : string * Config.ServerConfig =>
            match Config.GetEnabledServers (lastConfig w) !! kv.1 with
            | None => CallStart kv.1 kv.2
            | Some _ => CallReload kv.1 kv.2
            end)
           <$> filter (fun kv =>
                         needsCall (Config.GetEnabledServers (lastConfig w)) kv
                         = true)
                 (map_to_list (Config.GetEnabledServers newConfig))))%list.
Proof.
  unfold applyConfigChanges. rewrite calls_addOrUpdateStep.
  rewrite (proj1 (calls_removeStep _ _ _)). by rewrite <- app_assoc.
Qed.

(** X14.  A reconciliation stops exactly the servers that were enabled
    and no longer are, starts exactly the entries that are enabled now
    and were not before, and reloads exactly the entries enabled on both
    sides whose marshalled forms differ. *)
Theorem applyConfigChanges_action_sets (m : M) (old new : Config.Config) :
  let w' := applyConfigChanges
              {| manager := m; lastConfig := old; calls := [] |} new in
  (∀ server, CallStop server ∈ calls w'
     ↔ is_Some (Config.GetEnabledServers old !! server)
       ∧ Config.GetEnabledServers new !! server = None)
  ∧ (∀ server cfg, CallStart server cfg ∈ calls w'
       ↔ Config.GetEnabledServers new !! server = Some cfg
         ∧ Config.GetEnabledServers old !! server = None)
  ∧ (∀ server cfg, CallReload server cfg ∈ calls w'
       ↔ Config.GetEnabledServers new !! server = Some cfg
         ∧ ∃ o, Config.GetEnabledServers old !! server = Some o
                ∧ configEqual o cfg = false).
Proof.
  cbn zeta. rewrite calls_applyConfigChanges. cbn [calls lastConfig app].
  set (olds := Config.GetEnabledServers old).
  set (news := Config.GetEnabledServers new).
  split_and!.
  - intros server. rewrite elem_of_app, !list_elem_of_fmap. split.
    + intros [(k & [= ->] & Hk)|([k v] & Hc & _)].
      * apply list_elem_of_filter in Hk as [Hn Hin].
        apply list_elem_of_fmap in Hin as ([k' v] & -> & Hin).
        apply elem_of_map_to_list in Hin. split; [eauto|done].
      * cbn in Hc. by destruct (olds !! k).
    + intros [[v Hv] Hn]. left. exists server. split; [done|].
      apply list_elem_of_filter. split; [done|].
      apply list_elem_of_fmap. exists (server, v). split; [done|].
      by apply elem_of_map_to_list.
  - intros server cfg. rewrite elem_of_app, !list_elem_of_fmap. split.
    + intros [(k & [=] & _)|([k v] & Hc & Hin)].
      apply list_elem_of_filter in Hin as [_ Hin%elem_of_map_to_list].
      cbn in Hc. destruct (olds !! k) eqn:E; [done|].
      by injection Hc as -> ->.
    + intros [Hn Ho]. right. exists (server, cfg). cbn. rewrite Ho.
      split; [done|]. apply list_elem_of_filter. split.
      * unfold needsCall. cbn. by rewrite Ho.
      * by apply elem_of_map_to_list.
  - intros server cfg. rewrite elem_of_app, !list_elem_of_fmap. split.
    + intros [(k & [=] & _)|([k v] & Hc & Hin)].
      apply list_elem_of_filter in Hin as [Hne Hin%elem_of_map_to_list].
      unfold needsCall in Hne. cbn in Hc, Hne.
      destruct (olds !! k) as [o|] eqn:E; [|done].
      injection Hc as -> ->. split; [done|]. exists o. split; [done|].
      by destruct (configEqual o v).
    + intros [Hn (o & Ho & Hne)]. right. exists (server, cfg). cbn.
      rewrite Ho. split; [done|]. apply list_elem_of_filter. split.
      * unfold needsCall. cbn. by rewrite Ho, Hne.
      * by apply elem_of_map_to_list.
Qed.

Lemma NoDup_fst_filter {A} (P : string * A → Prop) `{∀ x, Decision (P x)}
    (l : list (string * A)) :
  NoDup l.*1 → NoDup (filter P l).*1.
Proof.
  induction l as [|kv l IH]; [done|].
  rewrite fmap_cons. intros [Hn Hl]%NoDup_cons.
  destruct (decide (P kv)).
  - rewrite filter_cons_True by done. rewrite fmap_cons.
    apply NoDup_cons. split; [|auto].
    intros (kv' & Heq & Hin)%list_elem_of_fmap.
    apply list_elem_of_filter in Hin as [_ Hin].
    apply Hn, list_elem_of_fmap. eauto.
  - rewrite filter_cons_False by done. auto.
Qed.

(** X15.  The calls of one reconciliation come stops first, then starts
    and reloads, and no server is the subject of two of them. *)
Theorem applyConfigChanges_order (m : M) (old new : Config.Config) :
  let w' := applyConfigChanges
              {| manager := m; lastConfig := old; calls := [] |} new in
  (∃ stops others,
     calls w' = (stops ++ others)%list
     ∧ (∀ c, c ∈ stops → c = CallStop (callServer c))
     ∧ (∀ c, c ∈ others → c ≠ CallStop (callServer c)))
  ∧ NoDup (callServer <$> calls w').
Proof.
  cbn zeta. rewrite calls_applyConfigChanges. cbn [calls lastConfig app].
  set (olds := Config.GetEnabledServers old).
  set (news := Config.GetEnabledServers new).
  split.
  - eexists _, _. split; [done|]. split.
    + by intros c (k & -> & _)%list_elem_of_fmap.
    + intros c ([k v] & -> & _)%list_elem_of_fmap. cbn.
      by destruct (olds !! k).
  - rewrite fmap_app.
    assert (∀ ks : list string, callServer <$> (CallStop <$> ks) = ks)
      as Hstops.
    { intros ks. rewrite <- list_fmap_compose.
      rewrite <- (list_fmap_id ks) at 2. by apply list_fmap_ext. }
    assert (∀ kvs : list (string * Config.ServerConfig),
              callServer
                <$> ((fun kv : string * Config.ServerConfig =>
                        match olds !! kv.1 with
                        | None => CallStart kv.1 kv.2
                        | Some _ => CallReload kv.1 kv.2
                        end) <$> kvs)
              = kvs.*1) as Hothers.
    { intros kvs. rewrite <- list_fmap_compose. apply list_fmap_ext.
      intros i [k v] _. cbn. by destruct (olds !! k). }
    rewrite Hstops, Hothers. apply NoDup_app. split_and!.
    + apply NoDup_filter, NoDup_fst_map_to_list.
    + intros server [Hnew _]%list_elem_of_filter.
      intros ([k v] & -> & Hin)%list_elem_of_fmap.
      apply list_elem_of_filter in Hin as [_ Hin%elem_of_map_to_list].
      cbn in Hnew. unfold news in *. congruence.
    + apply NoDup_fst_filter, NoDup_fst_map_to_list.
Qed.

Lemma applyConfigChanges_lastConfig (w : Watcher M) :
  applyConfigChanges w (lastConfig w) = w.
Proof.
  unfold applyConfigChanges.
  rewrite (foldl_fixed (removeStep _)).
  - apply foldl_fixed. intros [k v] Hk%elem_of_map_to_list.
    unfold addOrUpdateStep. cbn [fst snd]. rewrite Hk.
    by rewrite configEqual_refl.
  - intros [k v] Hk%elem_of_map_to_list.
    unfold removeStep. cbn [fst]. by rewrite Hk.
Qed.

(** X16.  Handling the same file content a second time changes nothing:
    the first handling has made it the last applied config (or has
    rejected it), so the second makes no call on the manager. *)
Theorem handleConfigChange_twice (w : Watcher M) (file : Config.FileContent) :
  handleConfigChange (handleConfigChange w file) file
  = handleConfigChange w file.
Proof.
  unfold handleConfigChange.
  destruct (Config.Load file) as [c|e]; [|done].
  destruct (Config.Validate c); [done|].
  set (w1 := {| manager := manager (applyConfigChanges w c);
                lastConfig := c;
                calls := calls (applyConfigChanges w c) |}).
  change (applyConfigChanges w1 c)
    with (applyConfigChanges w1 (lastConfig w1)).
  by rewrite (applyConfigChanges_lastConfig w1).
Qed.

End WatcherMore.

(** ** The transports: waiting, framing and life cycle *)

Section SelectMore.
Import Wire.
Context {A : Type}.

Lemma foldr_min_le (c : Z) (cs : list (Z * Fired A)) :
  foldr (fun x acc => Z.min x.1 acc) c cs ≤ c
  ∧ ∀ x, x ∈ cs → foldr (fun x acc => Z.min x.1 acc) c cs ≤ x.1.
Proof.
  induction cs as [|y cs [IHc IHx]]; cbn.
  - split; [lia|]. by intros x ?%elem_of_nil.
  - split; [lia|]. intros x [->|Hin]%elem_of_cons; [lia|].
    specialize (IHx x Hin). lia.
Qed.

Lemma foldr_min_attained (c : Z * Fired A) (cs : list (Z * Fired A)) :
  ∃ x, x ∈ c :: cs ∧ x.1 = foldr (fun x acc => Z.min x.1 acc) c.1 cs.
Proof.
  induction cs as [|y cs (x & Hin & Hx)]; cbn.
  - exists c. split; [by left|done].
  - destruct (Z.min_spec y.1 (foldr (fun x acc => Z.min x.1 acc) c.1 cs))
      as [[_ ->]|[_ ->]].
    + exists y. split; [by right; left|done].
    + exists x. split; [|done].
      apply elem_of_cons in Hin as [->|Hin]; [by left|by right; right].
Qed.

(** The case that fires is one of the cases, and none of them is ready
    earlier. *)
Lemma select_spec (cases : list (Z * Fired A)) (pick : nat) r :
  select cases pick = Some r →
  r ∈ cases ∧ ∀ x, x ∈ cases → r.1 ≤ x.1.
Proof.
  unfold select. destruct cases as [|c cs]; [done|].
  intros Hr%list_elem_of_lookup_2.
  apply list_elem_of_filter in Hr as [-> Hin]. split; [done|].
  destruct (foldr_min_le c.1 cs) as [Hc Hx].
  intros x [->|Hx']%elem_of_cons; [done|by apply Hx].
Qed.

(** With at least one case the [select] returns. *)
Lemma select_is_Some (c : Z * Fired A) cs (pick : nat) :
  is_Some (select (c :: cs) pick).
Proof.
  unfold select. apply lookup_lt_is_Some.
  destruct (foldr_min_attained c cs) as (x & Hin & Hx).
  assert (x ∈ filter (fun y : Z * Fired A =>
                        y.1 = foldr (fun x acc => Z.min x.1 acc) c.1 cs)
                     (c :: cs)) as Hf
    by (by apply list_elem_of_filter).
  apply Nat.mod_upper_bound.
  destruct (filter _ (c :: cs)); [by apply elem_of_nil in Hf|done].
Qed.

End SelectMore.

Section TransportMore.
Import Wire.

Lemma connected_or_not (b : bool) : b = true ∨ b = false.
Proof. destruct b; auto. Qed.

Lemma Stdio_cases_nonneg (t : Stdio.StdioTransport) ctx timeout x :
  x ∈ (Stdio.readCase t ++ after timeout ++ whenDone ctx)%list → 0 ≤ x.1.
Proof.
  unfold Stdio.readCase, after, whenDone.
  intros [Hin|[Hin|Hin]%elem_of_app]%elem_of_app.
  - destruct (Stdio.reader t) as [|[d line] rest].
    + destruct (Stdio.eof t); [|by apply elem_of_nil in Hin].
      apply list_elem_of_singleton in Hin as ->. cbn. lia.
    + apply list_elem_of_singleton in Hin as ->. cbn. lia.
  - apply list_elem_of_singleton in Hin as ->. cbn. lia.
  - destruct (doneAt ctx); [|by apply elem_of_nil in Hin].
    apply list_elem_of_singleton in Hin as ->. cbn. lia.
Qed.

Lemma Stdio_SendRequest_bound (t : Stdio.StdioTransport) ctx req pick :
  0 ≤ (Stdio.SendRequest t ctx req pick).1.2
    ≤ Z.max 0 (Stdio.requestTimeout t ctx)
  ∧ ∀ d, doneAt ctx = Some d →
      (Stdio.SendRequest t ctx req pick).1.2 ≤ Z.max 0 d.
Proof.
  unfold Stdio.SendRequest.
  destruct (Stdio.connected t); cbn [negb];
    [|cbn; split; [lia|intros; lia]].
  destruct (Stdio.brokenPipe t); [cbn; split; [lia|intros; lia]|].
  cbn zeta.
  change (Stdio.requestTimeout (Stdio.written t req) ctx)
    with (Stdio.requestTimeout t ctx).
  destruct (select _ pick) as [[at_ f]|] eqn:Hsel;
    [|cbn; split; [lia|intros; lia]].
  apply select_spec in Hsel as [Hin Hmin]. cbn [fst] in Hmin.
  assert (0 ≤ at_) as H0 by (by apply Stdio_cases_nonneg in Hin).
  assert (at_ ≤ Z.max 0 (Stdio.requestTimeout t ctx)) as H1.
  { apply (Hmin (Z.max 0 (Stdio.requestTimeout t ctx), TimedOut)).
    apply elem_of_app. right. apply elem_of_app. left.
    unfold after. by apply list_elem_of_singleton. }
  assert (∀ d, doneAt ctx = Some d → at_ ≤ Z.max 0 d) as H2.
  { intros d Hd. apply (Hmin (Z.max 0 d, CtxDone)).
    apply elem_of_app. right. apply elem_of_app. right.
    unfold whenDone. rewrite Hd. by apply list_elem_of_singleton. }
  destruct f; cbn [fst snd]; auto.
Qed.

Lemma Stdio_SendRequest_frame (t : Stdio.StdioTransport) ctx req pick :
  let t' := (Stdio.SendRequest t ctx req pick).1.1 in
  (Stdio.reader t' = Stdio.reader t ∨ Stdio.reader t' = tail (Stdio.reader t))
  ∧ (Stdio.stdin t' = Stdio.stdin t
     ∨ Stdio.stdin t' = (Stdio.stdin t ++ [req])%list)
  ∧ Stdio.connected t' = Stdio.connected t
  ∧ Stdio.timeout t' = Stdio.timeout t
  ∧ Stdio.requestID t' = Stdio.requestID t
  ∧ ∀ resp, (Stdio.SendRequest t ctx req pick).2 = Ok resp →
      ∃ d rest, Stdio.reader t = (d, resp) :: rest
                ∧ Stdio.reader t' = rest
                ∧ Stdio.stdin t' = (Stdio.stdin t ++ [req])%list.
Proof.
  unfold Stdio.SendRequest.
  destruct (Stdio.connected t) eqn:Hc; cbn [negb];
    [|cbn; split_and!; auto; done].
  destruct (Stdio.brokenPipe t); [cbn; split_and!; auto; done|].
  cbn zeta.
  destruct (select _ pick) as [[at_ f]|] eqn:Hsel;
    [|cbn; split_and!; auto; done].
  apply select_spec in Hsel as [Hin _].
  destruct f; cbn; split_and!; auto; try done.
  intros resp [= ->].
  apply elem_of_app in Hin as [Hin|Hin].
  - unfold Stdio.readCase in Hin. cbn in Hin.
    destruct (Stdio.reader t) as [|[d line] rest].
    + destruct (Stdio.eof t); [|by apply elem_of_nil in Hin].
      by apply list_elem_of_singleton in Hin.
    + apply list_elem_of_singleton in Hin. injection Hin as _ ->.
      by exists d, rest.
  - unfold after, whenDone in Hin.
    apply elem_of_app in Hin as [Hin|Hin].
    + by apply list_elem_of_singleton in Hin.
    + destruct (doneAt ctx); [|by apply elem_of_nil in Hin].
      by apply list_elem_of_singleton in Hin.
Qed.

Lemma Docker_cases_nonneg (t : Docker.DockerTransport) ctx timeout x :
  x ∈ (Docker.readCase t ++ after timeout ++ whenDone ctx)%list → 0 ≤ x.1.
Proof.
  unfold Docker.readCase, after, whenDone.
  intros [Hin|[Hin|Hin]%elem_of_app]%elem_of_app.
  - destruct (Docker.reader t) as [|[d line] rest].
    + destruct (Docker.eof t); [|by apply elem_of_nil in Hin].
      apply list_elem_of_singleton in Hin as ->. cbn. lia.
    + apply list_elem_of_singleton in Hin as ->. cbn. lia.
  - apply list_elem_of_singleton in Hin as ->. cbn. lia.
  - destruct (doneAt ctx); [|by apply elem_of_nil in Hin].
    apply list_elem_of_singleton in Hin as ->. cbn. lia.
Qed.

Lemma Docker_SendRequest_bound (t : Docker.DockerTransport) ctx req pick :
  0 ≤ (Docker.SendRequest t ctx req pick).1.2
    ≤ Z.max 0 (Docker.requestTimeout t ctx)
  ∧ ∀ d, doneAt ctx = Some d →
      (Docker.SendRequest t ctx req pick).1.2 ≤ Z.max 0 d.
Proof.
  unfold Docker.SendRequest.
  destruct (Docker.connected t); cbn [negb];
    [|cbn; split; [lia|intros; lia]].
  destruct (Docker.brokenPipe t); [cbn; split; [lia|intros; lia]|].
  cbn zeta.
  change (Docker.requestTimeout (Docker.written t req) ctx)
    with (Docker.requestTimeout t ctx).
  destruct (select _ pick) as [[at_ f]|] eqn:Hsel;
    [|cbn; split; [lia|intros; lia]].
  apply select_spec in Hsel as [Hin Hmin]. cbn [fst] in Hmin.
  assert (0 ≤ at_) as H0 by (by apply Docker_cases_nonneg in Hin).
  assert (at_ ≤ Z.max 0 (Docker.requestTimeout t ctx)) as H1.
  { apply (Hmin (Z.max 0 (Docker.requestTimeout t ctx), TimedOut)).
    apply elem_of_app. right. apply elem_of_app. left.
    unfold after. by apply list_elem_of_singleton. }
  assert (∀ d, doneAt ctx = Some d → at_ ≤ Z.max 0 d) as H2.
  { intros d Hd. apply (Hmin (Z.max 0 d, CtxDone)).
    apply elem_of_app. right. apply elem_of_app. right.
    unfold whenDone. rewrite Hd. by apply list_elem_of_singleton. }
  destruct f; cbn [fst snd]; auto.
Qed.

Lemma Docker_SendRequest_frame (t : Docker.DockerTransport) ctx req pick :
  let t' := (Docker.SendRequest t ctx req pick).1.1 in
  (Docker.reader t' = Docker.reader t ∨ Docker.reader t' = tail (Docker.reader t))
  ∧ (Docker.stdin t' = Docker.stdin t
     ∨ Docker.stdin t' = (Docker.stdin t ++ [req])%list)
  ∧ Docker.connected t' = Docker.connected t
  ∧ Docker.timeout t' = Docker.timeout t
  ∧ Docker.requestID t' = Docker.requestID t
  ∧ ∀ resp, (Docker.SendRequest t ctx req pick).2 = Ok resp →
      ∃ d rest, Docker.reader t = (d, resp) :: rest
                ∧ Docker.reader t' = rest
                ∧ Docker.stdin t' = (Docker.stdin t ++ [req])%list.
Proof.
  unfold Docker.SendRequest.
  destruct (Docker.connected t) eqn:Hc; cbn [negb];
    [|cbn; split_and!; auto; done].
  destruct (Docker.brokenPipe t); [cbn; split_and!; auto; done|].
  cbn zeta.
  destruct (select _ pick) as [[at_ f]|] eqn:Hsel;
    [|cbn; split_and!; auto; done].
  apply select_spec in Hsel as [Hin _].
  destruct f; cbn; split_and!; auto; try done.
  intros resp [= ->].
  apply elem_of_app in Hin as [Hin|Hin].
  - unfold Docker.readCase in Hin. cbn in Hin.
    destruct (Docker.reader t) as [|[d line] rest].
    + destruct (Docker.eof t); [|by apply elem_of_nil in Hin].
      by apply list_elem_of_singleton in Hin.
    + apply list_elem_of_singleton in Hin. injection Hin as _ ->.
      by exists d, rest.
  - unfold after, whenDone in Hin.
    apply elem_of_app in Hin as [Hin|Hin].
    + by apply list_elem_of_singleton in Hin.
    + destruct (doneAt ctx); [|by apply elem_of_nil in Hin].
      by apply list_elem_of_singleton in Hin.
Qed.

(** X17.  A request on the stdio or container transport never waits
    longer than the timeout it applies, nor past the moment the
    caller's context is done, and never a negative time. *)
Theorem SendRequest_wait_is_bounded :
  (∀ (t : Stdio.StdioTransport) ctx req pick,
     0 ≤ (Stdio.SendRequest t ctx req pick).1.2
       ≤ Z.max 0 (Stdio.requestTimeout t ctx)
     ∧ ∀ d, doneAt ctx = Some d →
         (Stdio.SendRequest t ctx req pick).1.2 ≤ Z.max 0 d)
  ∧ (∀ (t : Docker.DockerTransport) ctx req pick,
     0 ≤ (Docker.SendRequest t ctx req pick).1.2
       ≤ Z.max 0 (Docker.requestTimeout t ctx)
     ∧ ∀ d, doneAt ctx = Some d →
         (Docker.SendRequest t ctx req pick).1.2 ≤ Z.max 0 d).
Proof.
  split.
  - apply Stdio_SendRequest_bound.
  - apply Docker_SendRequest_bound.
Qed.

(** X18.  Whatever happens, one [SendRequest] on the stdio or container
    transport writes at most its own request, takes at most one line
    from the reader, and leaves the connection flag, the timeout and
    the request counter alone; a response that it returns is always the
    line that was first in the reader, removed from it, for a request
    that has been written. *)
Theorem SendRequest_takes_one_line :
  (∀ (t : Stdio.StdioTransport) ctx req pick,
     let t' := (Stdio.SendRequest t ctx req pick).1.1 in
     (Stdio.reader t' = Stdio.reader t
      ∨ Stdio.reader t' = tail (Stdio.reader t))
     ∧ (Stdio.stdin t' = Stdio.stdin t
        ∨ Stdio.stdin t' = (Stdio.stdin t ++ [req])%list)
     ∧ Stdio.connected t' = Stdio.connected t
     ∧ Stdio.timeout t' = Stdio.timeout t
     ∧ Stdio.requestID t' = Stdio.requestID t
     ∧ ∀ resp, (Stdio.SendRequest t ctx req pick).2 = Ok resp →
         ∃ d rest, Stdio.reader t = (d, resp) :: rest
                   ∧ Stdio.reader t' = rest
                   ∧ Stdio.stdin t' = (Stdio.stdin t ++ [req])%list)
  ∧ (∀ (t : Docker.DockerTransport) ctx req pick,
     let t' := (Docker.SendRequest t ctx req pick).1.1 in
     (Docker.reader t' = Docker.reader t
      ∨ Docker.reader t' = tail (Docker.reader t))
     ∧ (Docker.stdin t' = Docker.stdin t
        ∨ Docker.stdin t' = (Docker.stdin t ++ [req])%list)
     ∧ Docker.connected t' = Docker.connected t
     ∧ Docker.timeout t' = Docker.timeout t
     ∧ Docker.requestID t' = Docker.requestID t
     ∧ ∀ resp, (Docker.SendRequest t ctx req pick).2 = Ok resp →
         ∃ d rest, Docker.reader t = (d, resp) :: rest
                   ∧ Docker.reader t' = rest
                   ∧ Docker.stdin t' = (Docker.stdin t ++ [req])%list).
Proof.
  split.
  - apply Stdio_SendRequest_frame.
  - apply Docker_SendRequest_frame.
Qed.

(** X19.  The life cycle of the stdio transport: [Close] is idempotent
    and never fails; after it requests and notifications are refused as
    "not connected" and write nothing; [Start] on a running transport
    is refused and changes nothing; [Start] after [Close] succeeds on a
    new child, with empty pipes and a request counter that hands out 1
    first. *)
Theorem Stdio_life_cycle (t : Stdio.StdioTransport) :
  Stdio.Close (Stdio.Close t) = Stdio.Close t
  ∧ Stdio.IsConnected (Stdio.Close t) = false
  ∧ (∀ ctx req pick,
       Stdio.SendRequest (Stdio.Close t) ctx req pick
       = (Stdio.Close t, 0, Err ErrNotConnected))
  ∧ (∀ n, Stdio.SendNotification (Stdio.Close t) n
          = (Stdio.Close t, Some ErrNotConnected))
  ∧ (∀ child, Stdio.connected t = true →
       Stdio.Start t child = (t, Some ErrAlreadyStarted))
  ∧ (∀ child,
       (Stdio.Start (Stdio.Close t) (Some child)).2 = None
       ∧ Stdio.IsConnected (Stdio.Start (Stdio.Close t) (Some child)).1 = true
       ∧ Stdio.stdin (Stdio.Start (Stdio.Close t) (Some child)).1 = []
       ∧ Stdio.reader (Stdio.Start (Stdio.Close t) (Some child)).1
         = prints child
       ∧ (Stdio.NextRequestID
            (Stdio.Start (Stdio.Close t) (Some child)).1).2 = 1).
Proof.
  assert (Stdio.connected (Stdio.Close t) = false) as Hc.
  { unfold Stdio.Close. by destruct (Stdio.connected t) eqn:E. }
  split_and!.
  - unfold Stdio.Close at 1. by rewrite Hc.
  - exact Hc.
  - intros ctx req pick. unfold Stdio.SendRequest. by rewrite Hc.
  - intros n. unfold Stdio.SendNotification. by rewrite Hc.
  - intros child Ht. unfold Stdio.Start. by rewrite Ht.
  - intros child. unfold Stdio.Start. rewrite Hc. by cbn.
Qed.

End TransportMore.

(** ** The event-stream transport: routing by id *)

Section SSEMore.
Import Wire SSE.

Lemma handleSSEMessage_cases t e t' :
  handleSSEMessage t e = Returns t' →
  t' = t
  ∨ ∃ msg n ch, e = Some msg ∧ envID msg = IDNumber n
                ∧ responses t !! n = Some ch
                ∧ t' = setResponses t
                         (<[n := trySend (envResult msg) ch]> (responses t)).
Proof.
  unfold handleSSEMessage. destruct e as [msg|]; [|intros [= <-]; by left].
  case_decide as Hid; [|intros [= <-]; by left].
  destruct (envID msg) as [|n|s] eqn:E; [done| |done]. cbn.
  destruct (responses t !! n) as [ch|] eqn:Hn; intros [= <-]; [|by left].
  right. by exists msg, n, ch.
Qed.

(** X20.  Handling an event never creates or removes a pending slot and
    never replaces a reply that already waits in one: the first reply
    for an id is the one its caller gets.  The rest of the transport is
    not touched. *)
Theorem handleSSEMessage_first_reply_wins (t t' : SSETransport)
    (e : option Envelope) :
  handleSSEMessage t e = Returns t' →
  dom (responses t') = dom (responses t)
  ∧ (∀ n v, responses t !! n = Some (Some v) →
       responses t' !! n = Some (Some v))
  ∧ connected t' = connected t
  ∧ timeout t' = timeout t
  ∧ requestID t' = requestID t.
Proof.
  intros [->|(msg & n & ch & -> & Hid & Hn & ->)]%handleSSEMessage_cases;
    [done|].
  cbn [responses setResponses connected timeout requestID]. split_and!; try done.
  - rewrite dom_insert_L. apply set_eq. intros k.
    rewrite elem_of_union, elem_of_singleton. split; [|by right].
    intros [->|?]; [|done]. apply elem_of_dom. eauto.
  - intros k v Hk. destruct (decide (n = k)) as [->|Hne].
    + rewrite lookup_insert_eq. rewrite Hk in Hn. by injection Hn as <-.
    + by rewrite lookup_insert_ne.
Qed.






Lemma handleSSEMessage_first_reply_wins_witness :
  dom (responses (setResponses Examples.sseWaiting {[1 := Some "hi"]}))
  = dom (responses Examples.sseWaiting).
Proof.
  destruct (handleSSEMessage_first_reply_wins Examples.sseWaiting
              (setResponses Examples.sseWaiting {[1 := Some "hi"]})
              (Some (Examples.reply 1 "hi"))) as [Hdom _].
  - vm_compute. reflexivity.
  - exact Hdom.
Defined.

End SSEMore.

(** ** The downstream server: names and snapshots *)

Section ServerMore.
Import Server.

Lemma substring_all (s : string) : substring 0 (String.length s) s = s.
Proof. induction s as [|a s IH]; cbn; [done|]. f_equal. exact IH. Qed.

Lemma substring_prefix (p r : string) :
  substring 0 (String.length p) (p +:+ r) = p.
Proof.
  induction p as [|a p IH].
  - by destruct r.
  - change (String a p +:+ r) with (String a (p +:+ r)).
    cbn [substring String.length]. f_equal. exact IH.
Qed.

Lemma substring_after_colon (p r : string) :
  substring (S (String.length p))
            (String.length (p +:+ ":" +:+ r) - S (String.length p))
            (p +:+ ":" +:+ r) = r.
Proof.
  induction p as [|a p IH].
  - change ("" +:+ ":" +:+ r) with (String ":" r).
    cbn [String.length].
    replace (S (String.length r) - 1)%nat with (String.length r) by lia.
    cbn [substring]. apply substring_all.
  - change (String a p +:+ ":" +:+ r) with (String a (p +:+ ":" +:+ r)).
    cbn [substring String.length Nat.sub]. exact IH.
Qed.

Lemma indexColon_append (p r : string) :
  indexColon p = None →
  indexColon (p +:+ ":" +:+ r) = Some (String.length p).
Proof.
  induction p as [|a p IH]; [done|].
  change (String a p +:+ ":" +:+ r) with (String a (p +:+ ":" +:+ r)).
  cbn [indexColon String.length].
  case_decide; [done|]. intros Hp.
  destruct (indexColon p); [done|]. by rewrite IH.
Qed.

(** X22.  The name under which a tool is published leads back to its
    server and its name: when the server name contains no colon, the
    handler splits [server:tool] into exactly that server and that tool
    name (which may itself contain colons), whatever servers are
    running. *)
Theorem resolveTool_namespaced (servers : list string) (t : Registry.Tool) :
  indexColon (Registry.PluginID t) = None →
  resolveTool servers (namespaced t)
  = Some (Registry.PluginID t, Registry.Name t).
Proof.
  intros Hp. unfold resolveTool, namespaced.
  rewrite indexColon_append by done.
  by rewrite substring_prefix, substring_after_colon.
Qed.

Lemma resolveTool_namespaced_witness :
  resolveTool ["a"; "b"]
    (namespaced {| Registry.ID := "ns:echo"; Registry.Name := "ns:echo";
                   Registry.Description := ""; Registry.PluginID := "a" |})
  = Some ("a", "ns:echo").
Proof.
  apply (resolveTool_namespaced ["a"; "b"]
           {| Registry.ID := "ns:echo"; Registry.Name := "ns:echo";
              Registry.Description := ""; Registry.PluginID := "a" |}).
  reflexivity.
Defined.

Lemma foldl_addStep (snapshot : list Registry.Tool) :
  ∀ st : gset string * list string,
    (foldl addStep st snapshot).1
    = st.1 ∪ list_to_set (namespaced <$> snapshot)
    ∧ (∀ n, n ∈ (foldl addStep st snapshot).2
         ↔ n ∈ st.2 ∨ (n ∈ namespaced <$> snapshot ∧ n ∉ st.1))
    ∧ (NoDup st.2 → (∀ n, n ∈ st.2 → n ∈ st.1) →
       NoDup (foldl addStep st snapshot).2).
Proof.
  induction snapshot as [|t snapshot IH]; intros st; cbn [foldl].
  - split_and!.
    + cbn. by rewrite union_empty_r_L.
    + intros n. split; [by left|]. intros [?|[?%elem_of_nil _]]; done.
    + done.
  - destruct (IH (addStep st t)) as (Hset & Hadd & Hnd).
    rewrite Hset. unfold addStep in *.
    destruct (decide (namespaced t ∈ st.1)) as [Hin|Hnin].
    + split_and!.
      * cbn. apply set_eq. intros n. set_unfold. naive_solver.
      * intros n. rewrite Hadd. rewrite fmap_cons, elem_of_cons.
        split; [naive_solver|].
        intros [?|[[->|?] ?]]; [by left|done|by right].
      * done.
    + split_and!.
      * cbn. apply set_eq. intros n. set_unfold. naive_solver.
      * intros n. rewrite Hadd. cbn [fst snd].
        rewrite fmap_cons, elem_of_cons, elem_of_app, list_elem_of_singleton.
        rewrite elem_of_union, elem_of_singleton. split.
        -- intros [[?| ->]|[? ?]]; [by left|by right; split; [left|]|].
           right. split; [by right|]. intros ?. naive_solver.
        -- intros [?|[[->|?] ?]]; [by left; left|by left; right|].
           destruct (decide (n = namespaced t)) as [->|?];
             [by left; right|].
           right. split; [done|]. intros [?|?]; done.
      * intros Hnd0 Hsub. apply Hnd; cbn [fst snd].
        -- apply NoDup_app. split_and!; [done| |apply NoDup_singleton].
           intros n Hn Heq. apply list_elem_of_singleton in Heq as ->.
           by apply Hnin, Hsub.
        -- intros n [?|Heq]%elem_of_app;
             [apply elem_of_union_r; by apply Hsub|].
           apply list_elem_of_singleton in Heq as ->.
           by apply elem_of_union_l, elem_of_singleton_2.
Qed.

(** X23.  After a snapshot has been processed the registered names are
    exactly the published names of the snapshot's tools; the names
    added are those of the snapshot that were not registered, each
    once, and the names removed are those registered before that the
    snapshot no longer has. *)
Theorem syncSnapshot_converges (reg : gset string)
    (snapshot : list Registry.Tool) :
  registered (syncSnapshot reg snapshot)
  = list_to_set (namespaced <$> snapshot)
  ∧ (∀ n, n ∈ added (syncSnapshot reg snapshot)
       ↔ n ∈ namespaced <$> snapshot ∧ n ∉ reg)
  ∧ NoDup (added (syncSnapshot reg snapshot))
  ∧ (∀ n, n ∈ removed (syncSnapshot reg snapshot)
       ↔ n ∈ reg ∧ n ∉ namespaced <$> snapshot).
Proof.
  unfold syncSnapshot. cbn [registered added removed].
  destruct (foldl_addStep snapshot (reg, [])) as (Hset & Hadd & Hnd).
  cbn [fst snd] in *. rewrite Hset. split_and!.
  - apply set_eq. intros n.
    rewrite elem_of_difference, elem_of_list_to_set, list_elem_of_filter,
      elem_of_elements, elem_of_union, !elem_of_list_to_set.
    split; [|naive_solver].
    intros [[?|?] Hn]; [|done].
    destruct (decide (n ∈ namespaced <$> snapshot)); [done|].
    destruct Hn. split; [done|by left].
  - intros n. rewrite Hadd. split; [|by right].
    intros [?%elem_of_nil|?]; done.
  - apply Hnd; [apply NoDup_nil_2|]. by intros n ?%elem_of_nil.
  - intros n.
    rewrite list_elem_of_filter, elem_of_elements, elem_of_union,
      !elem_of_list_to_set.
    naive_solver.
Qed.

End ServerMore.

(** ** The watcher on the plugin manager *)

Section ReconcileMore.
Context `{GoLib} `{Plugin.Peers}.
Import Plugin.
#[local] Existing Instance Watcher.Manager_PluginManager.

Lemma servers_StopServer m server :
  servers (StopServer m server).1 = delete server (servers m).
Proof.
  unfold StopServer. destruct (servers m !! server) as [srv|] eqn:Hs.
  - unfold sessionClose. by destruct (sessCloseFails (session srv)).
  - cbn. symmetry. by apply delete_id.
Qed.

Lemma ReloadServer_other m server cfg k :
  k ≠ server → servers (ReloadServer m server cfg).1 !! k = servers m !! k.
Proof.
  intros Hne. unfold ReloadServer, GetServer.
  destruct (servers m !! server) as [srv|]; [|by apply StartServer_other].
  pose proof (servers_StopServer m server) as Hd.
  destruct (StopServer m server) as [m0 [e|]]; cbn [fst] in *.
  - by rewrite Hd, lookup_delete_ne.
  - rewrite StartServer_other by done. by rewrite Hd, lookup_delete_ne.
Qed.

Lemma removeStep_other new (w : Watcher.Watcher Manager) kv n :
  kv.1 ≠ n →
  servers (Watcher.manager (Watcher.removeStep new w kv)) !! n
  = servers (Watcher.manager w) !! n.
Proof.
  intros Hne. unfold Watcher.removeStep.
  destruct (new !! kv.1); [done|].
  cbn [Watcher.callStop Watcher.manager Watcher.StopServer
       Watcher.Manager_PluginManager].
  by rewrite servers_StopServer, lookup_delete_ne.
Qed.

Lemma addOrUpdateStep_other old (w : Watcher.Watcher Manager) kv n :
  kv.1 ≠ n →
  servers (Watcher.manager (Watcher.addOrUpdateStep old w kv)) !! n
  = servers (Watcher.manager w) !! n.
Proof.
  intros Hne. unfold Watcher.addOrUpdateStep.
  destruct (old !! kv.1) as [o|].
  - destruct (Watcher.configEqual o kv.2); [done|].
    cbn [Watcher.callReload Watcher.manager Watcher.ReloadServer
         Watcher.Manager_PluginManager].
    by apply ReloadServer_other.
  - cbn [Watcher.callStart Watcher.manager Watcher.StartServer
         Watcher.Manager_PluginManager].
    by apply StartServer_other.
Qed.

Lemma addOrUpdate_loop_other old n (l : list (string * Config.ServerConfig)) :
  ∀ w : Watcher.Watcher Manager,
    (∀ kv, kv ∈ l → kv.1 = n →
       ∃ o, old !! n = Some o ∧ Watcher.configEqual o kv.2 = true) →
    servers (Watcher.manager (foldl (Watcher.addOrUpdateStep old) w l)) !! n
    = servers (Watcher.manager w) !! n.
Proof.
  induction l as [|kv l IH]; intros w Hl; [done|]. cbn [foldl].
  rewrite IH by (intros kv' Hin; apply Hl; by right).
  destruct (decide (kv.1 = n)) as [Heq|Hne];
    [|by apply addOrUpdateStep_other].
  destruct (Hl kv ltac:(by left) Heq) as (o & Ho & Hequal).
  unfold Watcher.addOrUpdateStep. by rewrite Heq, Ho, Hequal.
Qed.

(** X24.  After a reconciliation on the plugin manager no session runs
    under a name that was enabled in the last applied config and is
    not enabled in the new one, whatever the calls on the other servers
    answer. *)
Theorem reconcile_stops_removed (w : Watcher.Watcher Manager)
    (newConfig : Config.Config) (server : string) :
  is_Some (Config.GetEnabledServers (Watcher.lastConfig w) !! server) →
  Config.GetEnabledServers newConfig !! server = None →
  servers (Watcher.manager (Watcher.applyConfigChanges w newConfig))
    !! server = None.
Proof.
  intros [o Hold] Hnew. unfold Watcher.applyConfigChanges.
  rewrite addOrUpdate_loop_other.
  2:{ intros [k v] Hin%elem_of_map_to_list Heq. cbn in Heq. subst k.
      congruence. }
  apply elem_of_map_to_list in Hold. rename Hold into Hin.
  remember (map_to_list (Config.GetEnabledServers (Watcher.lastConfig w)))
    as l eqn:Hl.
  clear Hl.
  assert (∀ (l : list (string * Config.ServerConfig)) w0,
            servers (Watcher.manager w0) !! server = None →
            servers (Watcher.manager
                       (foldl (Watcher.removeStep
                                 (Config.GetEnabledServers newConfig)) w0 l))
              !! server = None) as Hkeep.
  { clear. induction l as [|kv l IH]; intros w0 Hn; [done|]. cbn [foldl].
    apply IH. unfold Watcher.removeStep.
    destruct (Config.GetEnabledServers newConfig !! kv.1); [done|].
    cbn [Watcher.callStop Watcher.manager Watcher.StopServer
         Watcher.Manager_PluginManager].
    rewrite servers_StopServer.
    destruct (decide (kv.1 = server)) as [->|Hne].
    - apply lookup_delete_eq.
    - by rewrite lookup_delete_ne. }
  revert w. induction l as [|kv l IH]; intros w;
    [by apply elem_of_nil in Hin|].
  cbn [foldl]. apply elem_of_cons in Hin as [<-|Hin]; [|by apply IH].
  apply Hkeep. unfold Watcher.removeStep. cbn [fst]. rewrite Hnew.
  cbn [Watcher.callStop Watcher.manager Watcher.StopServer
       Watcher.Manager_PluginManager].
  rewrite servers_StopServer. apply lookup_delete_eq.
Qed.

(** X25.  A reconciliation on the plugin manager leaves alone every
    server it has no call for: a name enabled on both sides with equal
    marshalled entries, and a name enabled on neither side, has the
    same session, or none, as before. *)
Theorem reconcile_keeps_unchanged (w : Watcher.Watcher Manager)
    (newConfig : Config.Config) (server : string) :
  (Config.GetEnabledServers (Watcher.lastConfig w) !! server = None
   ∧ Config.GetEnabledServers newConfig !! server = None)
  ∨ (∃ o c, Config.GetEnabledServers (Watcher.lastConfig w) !! server = Some o
            ∧ Config.GetEnabledServers newConfig !! server = Some c
            ∧ Watcher.configEqual o c = true) →
  servers (Watcher.manager (Watcher.applyConfigChanges w newConfig))
    !! server
  = servers (Watcher.manager w) !! server.
Proof.
  intros Hcase. unfold Watcher.applyConfigChanges.
  rewrite addOrUpdate_loop_other.
  2:{ intros [k v] Hin%elem_of_map_to_list Heq. cbn in Heq. subst k.
      destruct Hcase as [[_ Hn]|(o & c & Ho & Hc & Hequal)]; [congruence|].
      exists o. split; [done|]. cbn. congruence. }
  assert (∀ (l : list (string * Config.ServerConfig)) w0,
            (∀ kv, kv ∈ l → kv.1 = server →
               is_Some (Config.GetEnabledServers newConfig !! server)) →
            servers (Watcher.manager
                       (foldl (Watcher.removeStep
                                 (Config.GetEnabledServers newConfig)) w0 l))
              !! server
            = servers (Watcher.manager w0) !! server) as Hloop.
  { clear. induction l as [|kv l IH]; intros w0 Hl; [done|]. cbn [foldl].
    rewrite IH by (intros kv' Hin; apply Hl; by right).
    destruct (decide (kv.1 = server)) as [Heq|Hne];
      [|by apply removeStep_other].
    destruct (Hl kv ltac:(by left) Heq) as [c Hc].
    unfold Watcher.removeStep. by rewrite Heq, Hc. }
  apply Hloop. intros [k v] Hin%elem_of_map_to_list Heq. cbn in Heq. subst k.
  destruct Hcase as [[Ho _]|(o & c & _ & Hc & _)]; [congruence|eauto].
Qed.

End ReconcileMore.

(** ** The HTTP transport and the listen address *)

Section HTTPMore.
Import HTTP.

Lemma prefix_append (a c : string) : String.prefix a (a +:+ c) = true.
Proof.
  induction a as [|x a IH]; [by destruct c|].
  change (String x a +:+ c) with (String x (a +:+ c)).
  cbn [String.prefix]. by destruct (ascii_dec x x).
Qed.

Lemma append_assoc (a b c : string) : (a +:+ b) +:+ c = a +:+ (b +:+ c).
Proof.
  induction a as [|x a IH]; [done|].
  change (String x a +:+ b) with (String x (a +:+ b)).
  change (String x (a +:+ b) +:+ c) with (String x ((a +:+ b) +:+ c)).
  by rewrite IH.
Qed.

Lemma prefix_same_length (p q r : string) :
  String.length q = String.length p → q ≠ p →
  String.prefix p (q +:+ r) = false.
Proof.
  revert q. induction p as [|x p IH]; intros [|y q]; try done.
  change (String y q +:+ r) with (String y (q +:+ r)).
  cbn [String.prefix String.length]. intros [= Hlen] Hne.
  destruct (ascii_dec x y) as [->|]; [|done].
  apply IH; [done|]. by intros ->.
Qed.

(** X26.  [containsHTTPError] recognises the error that a request
    returns for a response status: the error made for a status other
    than 200 is found under that status, whatever the body, while no
    error, the error of a transport that is not connected and the error
    of a request that could not be sent are found under no status at
    all. *)
Theorem containsHTTPError_recognises (t : HTTPTransport) :
  (∀ status body, connected t = true → status ≠ 200 →
     ∃ err, sendRequestWithMethod t (Response status body) = Err err
            ∧ containsHTTPError (Some err) status = true)
  ∧ (∀ code, containsHTTPError None code = false)
  ∧ (∀ reply code, connected t = false →
       ∃ err, sendRequestWithMethod t reply = Err err
              ∧ containsHTTPError (Some err) code = false)
  ∧ (∀ cause code, connected t = true →
       ∃ err, sendRequestWithMethod t (NoReply cause) = Err err
              ∧ containsHTTPError (Some err) code = false).
Proof.
  split_and!.
  - intros status body Hc Hs. unfold sendRequestWithMethod.
    rewrite Hc, decide_True by done. cbn [negb]. eexists. split; [done|].
    unfold containsHTTPError.
    rewrite <- (append_assoc "HTTP error " (pretty status)).
    apply prefix_append.
  - done.
  - intros reply code Hc. unfold sendRequestWithMethod. rewrite Hc.
    cbn [negb]. eexists. split; [done|]. reflexivity.
  - intros cause code Hc. unfold sendRequestWithMethod. rewrite Hc.
    cbn [negb]. eexists. split; [done|]. reflexivity.
Qed.

Lemma three_digit_status (status : Z) :
  100 ≤ status ≤ 999 → status ≠ 405 →
  String.length (pretty status) = 3%nat ∧ pretty status ≠ "405".
Proof.
  intros Hr Hne.
  assert (forallb
            (fun s => (String.length (pretty s) =? 3)%nat
                      && (bool_decide (pretty s ≠ "405") || (s =? 405)))
            (seqZ 100 900) = true) as Hall by (vm_compute; reflexivity).
  rewrite forallb_forall in Hall.
  specialize (Hall status). rewrite <- list_elem_of_In, elem_of_seqZ in Hall.
  specialize (Hall ltac:(lia)).
  apply andb_true_iff in Hall as [Hlen Hnot].
  apply Nat.eqb_eq in Hlen. split; [done|].
  apply orb_true_iff in Hnot as [Hnot|Heq].
  - by apply bool_decide_eq_true in Hnot.
  - apply Z.eqb_eq in Heq. lia.
Qed.

(** X27.  The request of [Initialize] on a connected HTTP transport: a
    POST answered with 200 gives its body and the GET is not used; a
    POST answered with 405 is retried once with GET, whose outcome
    decides; a POST answered with any other three-digit status, or not
    answered at all, fails without a GET. *)
Theorem initializeRequest_retries_on_405 (t : HTTPTransport)
    (post get : Reply) :
  connected t = true →
  (∀ b, post = Response 200 (Some b) → initializeRequest t post get = Ok b)
  ∧ (∀ body, post = Response 405 body →
       initializeRequest t post get
       = match sendRequestWithMethod t get with
         | Ok b => Ok b
         | Err e =>
             Err ("initialize request failed (tried POST and GET): " +:+ e)
         end)
  ∧ (∀ status body, 100 ≤ status ≤ 999 → status ≠ 200 → status ≠ 405 →
       post = Response status body →
       initializeRequest t post get
       = Err ("initialize request failed: HTTP error " +:+ pretty status
              +:+ ": " +:+ default "" body))
  ∧ (∀ cause, post = NoReply cause →
       initializeRequest t post get
       = Err ("initialize request failed: HTTP request failed: " +:+ cause)).
Proof.
  intros Hc. unfold initializeRequest. split_and!.
  - intros b ->. unfold sendRequestWithMethod. rewrite Hc. cbn [negb].
    by rewrite decide_False by (by intros ?).
  - intros body ->. unfold sendRequestWithMethod at 1. rewrite Hc. cbn [negb].
    by rewrite decide_True by done.
  - intros status body Hr H200 H405 ->.
    unfold sendRequestWithMethod. rewrite Hc. cbn [negb].
    rewrite decide_True by done.
    destruct (three_digit_status status Hr H405) as [Hlen Hne].
    assert (containsHTTPError
              (Some ("HTTP error " +:+ pretty status +:+ ": "
                     +:+ default "" body)) 405 = false) as ->; [|done].
    unfold containsHTTPError.
    change (String.prefix "405"
              (pretty status +:+ ": " +:+ default "" body) = false).
    by apply prefix_same_length.
  - intros cause ->. unfold sendRequestWithMethod. by rewrite Hc.
Qed.

End HTTPMore.

Section MainMore.
Import Main.

Lemma containsColon_prefixed (p : string) : containsColon (":" +:+ p) = true.
Proof. reflexivity. Qed.


End MainMore.

Section FurtherExamples.
Import Plugin.

Lemma validated_entry_has_transport_witness :
  is_Some (@makeTransport Examples.plainGo Examples.stdioEcho).
Proof.
  apply (@validated_entry_has_transport Examples.plainGo Examples.echoPeers
           Examples.oneServer "a" Examples.stdioEcho Examples.emptyManager).
  - vm_compute. reflexivity.
  - vm_compute. reflexivity.
Defined.

Lemma StartServer_failure_changes_nothing_witness :
  servers Examples.runningA = servers Examples.runningA
  ∧ reg Examples.runningA = reg Examples.runningA.
Proof.
  destruct (@StartServer_failure_changes_nothing
              Examples.plainGo Examples.echoPeers
              Examples.runningA Examples.runningA "a" Examples.stdioEcho
              (ErrAlreadyStarted "a"))
    as (Hs & Hr & _).
  - vm_compute. reflexivity.
  - split; [exact Hs|exact Hr].
Defined.

Lemma StartServer_then_StopServer_witness :
  servers (StopServer Examples.runningA "a").1 = servers Examples.emptyManager.
Proof.
  apply (@StartServer_then_StopServer Examples.plainGo Examples.echoPeers
           Examples.emptyManager Examples.runningA "a" Examples.stdioEcho).
  vm_compute. reflexivity.
Defined.

Lemma reconcile_stops_removed_witness :
  servers (Watcher.manager
             (@Watcher.applyConfigChanges Examples.plainGo Manager
                (@Watcher.Manager_PluginManager
                   Examples.plainGo Examples.echoPeers)
                Examples.watching Examples.noServers)) !! "a" = None.
Proof.
  apply (@reconcile_stops_removed Examples.plainGo Examples.echoPeers
           Examples.watching Examples.noServers "a").
  - exists Examples.stdioEcho. vm_compute. reflexivity.
  - vm_compute. reflexivity.
Defined.

Lemma reconcile_keeps_unchanged_witness :
  servers (Watcher.manager
             (@Watcher.applyConfigChanges Examples.plainGo Manager
                (@Watcher.Manager_PluginManager
                   Examples.plainGo Examples.echoPeers)
                Examples.watching Examples.oneServer)) !! "a"
  = servers (Watcher.manager Examples.watching) !! "a".
Proof.
  apply (@reconcile_keeps_unchanged Examples.plainGo Examples.echoPeers
           Examples.watching Examples.oneServer "a").
  right. exists Examples.stdioEcho, Examples.stdioEcho.
  split; [vm_compute; reflexivity|].
  split; [vm_compute; reflexivity|].
  vm_compute. reflexivity.
Defined.

Lemma initializeRequest_retries_on_405_witness :
  HTTP.initializeRequest Examples.httpUp
    (HTTP.Response 405 (Some "method not allowed"))
    (HTTP.Response 200 (Some "{}"))
  = Ok "{}".
Proof.
  destruct (initializeRequest_retries_on_405 Examples.httpUp
              (HTTP.Response 405 (Some "method not allowed"))
              (HTTP.Response 200 (Some "{}")) eq_refl)
    as (_ & Hretry & _).
  exact (Hretry (Some "method not allowed") eq_refl).
Defined.

End FurtherExamples.
